(** * Nevada results loader ([openelex/us/nv/load.py]): embedding and properties

    The loaders read rows of a pre-processed CSV file, keep the rows of the
    tracked offices, parse the free-text "office" column into office,
    district and primary party, normalise the vote count and hand the whole
    batch to the result store in one insert.

    Text is modelled as the list of its characters.  The CSV reader decodes
    the file as latin-1, so a character of a row is one of the 256 code
    points an [ascii] holds.  The library functions follow Python 2.7, the
    interpreter this code base targets ([unicodecsv], [unicode.strip],
    [unicode.upper], [int]). *)

From Stdlib Require Import ZArith List Ascii String Bool Lia.
From stdpp Require Import base option list gmap strings.

Local Open Scope Z_scope.
Local Open Scope list_scope.

(** ** Exceptions and results *)

Inductive exn : Type :=
  | KeyError
  | AttributeError
  | IndexError
  | ValueError
  | NotImplementedError.

Inductive result (A : Type) : Type :=
  | Ok (a : A)
  | Raise (e : exn).
Arguments Ok {A} a.
Arguments Raise {A} e.

#[global] Instance exn_eq_dec : EqDecision exn.
Proof. solve_decision. Defined.

#[global] Instance result_eq_dec {A} `{EqDecision A} : EqDecision (result A).
Proof. solve_decision. Defined.

#[global] Instance result_ret : MRet result := @Ok.
#[global] Instance result_bind : MBind result := λ A B f m,
  match m with
  | Ok a => f a
  | Raise e => Raise e
  end.

#[global] Instance result_fmap : FMap result := λ A B f m,
  match m with
  | Ok a => Ok (f a)
  | Raise e => Raise e
  end.

(** ** Sequences: the operations Python shares between its string types *)

Module Seq.
Section Seq.
Context {A : Type} `{EqDecision A}.

(** [s.startswith(p)] *)
Fixpoint startswith (p s : list A) : bool :=
  match p, s with
  | [], _ => true
  | _ :: _, [] => false
  | a :: p', b :: s' => bool_decide (a = b) && startswith p' s'
  end.

(** [p in s] *)
Fixpoint contains (p s : list A) : bool :=
  startswith p s ||
  match s with
  | [] => false
  | _ :: s' => contains p s'
  end.

(** [s.find(sep)], with [None] for Python's [-1] *)
Fixpoint find (sep s : list A) : option nat :=
  if startswith sep s then Some O
  else match s with
       | [] => None
       | _ :: s' => S <$> find sep s'
       end.

(** [s.split(sep)] for a non-empty [sep] (every separator of this program
    is a non-empty literal): cut at the lowest occurrence, resume after
    it.  The fuel is the length of the text, which the remainder of a cut
    is always shorter than. *)
Fixpoint split_fuel (n : nat) (sep s : list A) : list (list A) :=
  match find sep s with
  | None => [s]
  | Some i =>
      take i s ::
      match n with
      | O => []
      | S n' => split_fuel n' sep (drop (i + length sep) s)
      end
  end.

Definition split (sep s : list A) : list (list A) :=
  split_fuel (length s) sep s.

(** [sep.join(parts)] *)
Fixpoint join (sep : list A) (parts : list (list A)) : list A :=
  match parts with
  | [] => []
  | [p] => p
  | p :: ps => p ++ sep ++ join sep ps
  end.

(** [s.replace(old, new)] for a non-empty [old] *)
Definition replace (old new s : list A) : list A :=
  join new (split old s).

(** [l[k]] *)
Definition item {B : Type} (l : list B) (k : nat) : result B :=
  match l !! k with
  | Some x => Ok x
  | None => Raise IndexError
  end.

(** The text before the lowest occurrence of [sep] (all of it when there
    is none), and the text after that occurrence. *)
Fixpoint before (sep s : list A) : list A :=
  if startswith sep s then []
  else match s with
       | [] => []
       | c :: s' => c :: before sep s'
       end.

Fixpoint after (sep s : list A) : list A :=
  if startswith sep s then drop (length sep) s
  else match s with
       | [] => []
       | _ :: s' => after sep s'
       end.
End Seq.
End Seq.

(** ** Text *)

Definition str : Type := list ascii.

Definition lit (s : string) : str := list_ascii_of_string s.
Coercion lit : string >-> str.

(** Characters that [unicode.isspace] accepts among the latin-1 code points:
    TAB..CR, FS..US, SPACE, NEL and NO-BREAK SPACE. *)
Definition isspace (c : ascii) : bool :=
  let n := N_of_ascii c in
  (((9 <=? n) && (n <=? 13)) || ((28 <=? n) && (n <=? 32)) ||
   (n =? 133) || (n =? 160))%N.

Fixpoint lstrip (s : str) : str :=
  match s with
  | [] => []
  | c :: s' => if isspace c then lstrip s' else s
  end.

Definition rstrip (s : str) : str := rev (lstrip (rev s)).

(** [s.strip()] *)
Definition strip (s : str) : str := rstrip (lstrip s).

(** [unicode.upper] maps a latin-1 character to a code point that may lie
    outside latin-1 (MICRO SIGN, Y WITH DIAERESIS), so the upper-cased text
    is a list of code points. *)
Definition upper_char (c : ascii) : N :=
  let n := N_of_ascii c in
  (if (97 <=? n) && (n <=? 122) then n - 32
   else if n =? 181 then 924
   else if (224 <=? n) && (n <=? 254) && negb (n =? 247) then n - 32
   else if n =? 255 then 376
   else n)%N.

Definition upper (s : str) : list N := map upper_char s.

(** The code points of a literal. *)
Definition codes (s : str) : list N := map N_of_ascii s.

(** [int(s)]: surrounding white space is ignored, then an optional sign and
    at least one decimal digit must make up the whole text. *)
Definition digit (c : ascii) : option Z :=
  let n := N_of_ascii c in
  if ((48 <=? n) && (n <=? 57))%N then Some (Z.of_N n - 48) else None.

Fixpoint digits (acc : Z) (s : str) : option Z :=
  match s with
  | [] => Some acc
  | c :: s' =>
      match digit c with
      | Some d => digits (10 * acc + d) s'
      | None => None
      end
  end.

Definition unsigned (s : str) : result Z :=
  match s with
  | [] => Raise ValueError
  | _ :: _ =>
      match digits 0 s with
      | Some v => Ok v
      | None => Raise ValueError
      end
  end.

Definition int (s : str) : result Z :=
  match strip s with
  | c :: body =>
      if bool_decide (c = "+"%char) then unsigned body
      else if bool_decide (c = "-"%char) then Z.opp <$> unsigned body
      else unsigned (c :: body)
  | [] => Raise ValueError
  end.

(** ** Python values, dictionaries, rows *)

Inductive pyval : Type :=
  | PNone
  | PStr (s : str)
  | PInt (z : Z).

#[global] Instance pyval_eq_dec : EqDecision pyval.
Proof. solve_decision. Defined.

(** A keyword dictionary.  [d.update(e)] is [e ∪ d]: the entries of [e] win. *)
Abbreviation dict := (gmap string pyval).

(** A row of [unicodecsv.DictReader]: the header names mapped to the decoded
    cells; a cell the line is too short for is [None]. *)
Abbreviation row := (gmap string (option str)).

(** [row[key]] *)
Definition getitem (r : row) (key : string) : result (option str) :=
  match r !! key with
  | Some v => Ok v
  | None => Raise KeyError
  end.

(** The receiver of a string method: [None] has none of them. *)
Definition receiver (v : option str) : result str :=
  match v with
  | Some s => Ok s
  | None => Raise AttributeError
  end.

(** [row[key]] as the receiver of a string method *)
Definition text (r : row) (key : string) : result str :=
  getitem r key ≫= receiver.

(** The election mapping of a run (a dictionary of the data source whose
    keys are always present). *)
Record mapping : Type := {
  election : str;
  ocd_id : str;
  name : str;
  raw_url : str;
  pre_processed_url : str
}.

#[global] Instance mapping_eq_dec : EqDecision mapping.
Proof. solve_decision. Defined.

(** What the loaders import from the rest of the code base. *)
Class Library : Type := {
  (** [openelex.lib.text.ocd_type_id] *)
  ocd_type_id : str → str;
  (** [BaseLoader._build_common_election_kwargs] *)
  _build_common_election_kwargs : mapping → dict
}.

Local Open Scope string_scope.
Local Open Scope list_scope.

(** ** NVBaseLoader *)

Definition target_offices : gset (list N) :=
  list_to_set (codes <$> [
    lit "PRESIDENT AND VICE PRESIDENT OF THE UNITED STATES";
    lit "PRESIDENT";
    lit "UNITED STATES SENATOR";
    lit "U.S. REPRESENTATIVE IN CONGRESS";
    lit "GOVERNOR";
    lit "LIEUTENANT GOVERNOR";
    lit "SECRETARY OF STATE";
    lit "STATE TREASURER";
    lit "STATE CONTROLLER";
    lit "ATTORNEY GENERAL";
    lit "STATE SENATE";
    lit "STATE ASSEMBLY" ]).

(** The dictionary [_build_contest_kwargs] returns. *)
Definition contest (office : str) (district primary_party : pyval) : dict :=
  {[ "office" := PStr office;
     "district" := district;
     "primary_party" := primary_party;
     "party" := primary_party ]}.

Definition _build_contest_kwargs (m : mapping) (r : row) : result dict :=
  if Seq.contains (lit "primary") (election m) then
    o ← text r "office";
    a ← Seq.item (Seq.split (lit "(") o) 0;
    b ← Seq.item (Seq.split (lit ", ") a) 0;
    let office := strip b in
    o ← text r "office";
    c ← Seq.item (Seq.split (lit "(") (strip o)) 1;
    primary_party ← Seq.item (Seq.split (lit ")") c) 0;
    o ← text r "office";
    district ←
      (if Seq.contains (codes "DISTRICT") (upper o) then
         o ← text r "office";
         d ← Seq.item (Seq.split (lit ", ") o) 1;
         e ← Seq.item (Seq.split (lit " (") d) 0;
         mret (PStr (strip e))
       else mret PNone);
    mret (contest office district (PStr primary_party))
  else
    let primary_party := PNone in
    o ← text r "office";
    if Seq.contains (codes "DISTRICT") (upper o) then
      o ← text r "office";
      d ← Seq.item (Seq.split (lit ", ") o) 1;
      let district := strip d in
      o ← text r "office";
      a ← Seq.item (Seq.split (lit ", ") o) 0;
      let office := strip a in
      mret (contest office (PStr district) primary_party)
    else
      o ← text r "office";
      mret (contest (strip o) PNone primary_party).

Definition _build_candidate_kwargs (r : row) : result dict :=
  c ← text r "candidate";
  mret ({[ "full_name" := PStr (strip c) ]} : dict).

(** [_skip_row] of [NVPrecinctLoader] and of [NVCountyLoader] (the two
    bodies are the same line). *)
Definition precinct_skip_row (r : row) : result bool :=
  o ← text r "office";
  a ← Seq.item (Seq.split (lit ",") o) 0;
  mret (negb (bool_decide (upper (strip a) ∈ target_offices))).

Definition county_skip_row (r : row) : result bool :=
  o ← text r "office";
  a ← Seq.item (Seq.split (lit ",") o) 0;
  mret (negb (bool_decide (upper (strip a) ∈ target_offices))).

(** ** The loader object and the result store

    A loader method runs on the attributes of [self] it reads or assigns and
    on the calls [RawResult.objects.insert] has received so far.  An
    exception leaves the state as it was when it was raised. *)

Record state : Type := {
  self_mapping : mapping;
  self_common_kwargs : dict;
  inserted : list (list dict)
}.

#[global] Instance state_eq_dec : EqDecision state.
Proof. solve_decision. Defined.

Definition M (A : Type) : Type := state → result A * state.

#[global] Instance M_ret : MRet M := λ A a σ, (Ok a, σ).
#[global] Instance M_bind : MBind M := λ A B f m σ,
  match m σ with
  | (Ok a, σ') => f a σ'
  | (Raise e, σ') => (Raise e, σ')
  end.

Definition lift {A} (r : result A) : M A := λ σ, (r, σ).
Definition get : M state := λ σ, (Ok σ, σ).
Definition set_mapping (m : mapping) : M unit := λ σ,
  (Ok (), {| self_mapping := m;
             self_common_kwargs := self_common_kwargs σ;
             inserted := inserted σ |}).
Definition set_common_kwargs (d : dict) : M unit := λ σ,
  (Ok (), {| self_mapping := self_mapping σ;
             self_common_kwargs := d;
             inserted := inserted σ |}).

(** [RawResult.objects.insert(results)]; a [RawResult] is its keyword
    dictionary. *)
Definition insert_results (results : list dict) : M unit := λ σ,
  (Ok (), {| self_mapping := self_mapping σ;
             self_common_kwargs := self_common_kwargs σ;
             inserted := (inserted σ ++ [results])%list |}).

Inductive loader : Type :=
  | NVXmlLoader
  | NVPrecinctLoader
  | NVCountyLoader.

Section Loaders.
Context `{Library}.

(** *** NVPrecinctLoader *)

(** The votes of a precinct row (lines 123-126). *)
Definition precinct_votes (r : row) : result pyval :=
  v ← text r "votes";
  if bool_decide (strip v = [])
  then mret (PStr "N/A")
  else
    v ← text r "votes";
    PInt <$> int (strip (Seq.replace (lit ",") (lit "") v)).

(** One turn of the loop for a row that is not skipped (lines 119-132). *)
Definition precinct_result (r : row) : M dict :=
  σ ← get;
  let rr_kwargs := self_common_kwargs σ in
  c ← lift (_build_contest_kwargs (self_mapping σ) r);
  let rr_kwargs := c ∪ rr_kwargs in
  c ← lift (_build_candidate_kwargs r);
  let rr_kwargs := c ∪ rr_kwargs in
  p ← lift (text r "precinct");
  let jurisdiction := strip p in
  votes ← lift (precinct_votes r);
  σ ← get;
  let u : dict :=
    {[ "jurisdiction" := PStr jurisdiction;
       "ocd_id" := PStr (ocd_id (self_mapping σ) ++ lit "/precinct:"
                         ++ ocd_type_id jurisdiction)%list;
       "votes" := votes ]} in
  mret (u ∪ rr_kwargs).

(** The loop over the rows of the reader (lines 116-132). *)
Fixpoint precinct_rows (rows : list row) (results : list dict)
    : M (list dict) :=
  match rows with
  | [] => mret results
  | r :: rows' =>
      skip ← lift (precinct_skip_row r);
      if (skip : bool) then precinct_rows rows' results
      else
        rec ← precinct_result r;
        precinct_rows rows' (results ++ [rec])%list
  end.

Definition precinct_load (rows : list row) : M unit :=
  σ ← get;
  set_common_kwargs (_build_common_election_kwargs (self_mapping σ));;
  σ ← get;
  set_common_kwargs
    (<["reporting_level" := PStr "precinct"]> (self_common_kwargs σ));;
  results ← precinct_rows rows [];
  insert_results results.

(** *** NVCountyLoader *)

(** The truth value of a cell. *)
Definition truthy (v : option str) : bool :=
  match v with
  | None => false
  | Some [] => false
  | Some (_ :: _) => true
  end.

(** The party of a county row (lines 160-163). *)
Definition county_party (r : row) : result pyval :=
  p ← getitem r "party";
  if truthy p then
    p ← getitem r "party";
    if negb (bool_decide (p = Some (lit "&nbsp;"))) then
      p ← text r "party";
      mret (PStr (strip p))
    else mret PNone
  else mret PNone.

(** The votes of a county row (line 168). *)
Definition county_votes (r : row) : result pyval :=
  v ← text r "votes";
  PInt <$> int (strip (Seq.replace (lit ",") (lit "") v)).

(** One turn of the loop for a row that is not skipped (lines 156-170). *)
Definition county_result (r : row) : M dict :=
  σ ← get;
  let rr_kwargs := self_common_kwargs σ in
  c ← lift (_build_contest_kwargs (self_mapping σ) r);
  let rr_kwargs := c ∪ rr_kwargs in
  c ← lift (_build_candidate_kwargs r);
  let rr_kwargs := c ∪ rr_kwargs in
  σ ← get;
  let jurisdiction := name (self_mapping σ) in
  party ← lift (county_party r);
  σ ← get;
  votes ← lift (county_votes r);
  let u : dict :=
    {[ "party" := party;
       "jurisdiction" := PStr jurisdiction;
       "ocd_id" := PStr (ocd_id (self_mapping σ));
       "votes" := votes ]} in
  mret (u ∪ rr_kwargs).

Fixpoint county_rows (rows : list row) (results : list dict)
    : M (list dict) :=
  match rows with
  | [] => mret results
  | r :: rows' =>
      skip ← lift (county_skip_row r);
      if (skip : bool) then county_rows rows' results
      else
        rec ← county_result r;
        county_rows rows' (results ++ [rec])%list
  end.

Definition county_load (rows : list row) : M unit :=
  σ ← get;
  set_common_kwargs (_build_common_election_kwargs (self_mapping σ));;
  σ ← get;
  set_common_kwargs
    (<["reporting_level" := PStr "county"]> (self_common_kwargs σ));;
  results ← county_rows rows [];
  insert_results results.

(** *** Dispatch *)

(** Modelled from the spec: [BaseLoader.load], the method [NVXmlLoader]
    inherits ([openelex/base/load.py] is not part of the sources at hand).
    The XML path is unimplemented and surfaces as an explicit
    not-implemented failure. *)
Definition BaseLoader_load : M unit := lift (Raise NotImplementedError).

Definition load (l : loader) (rows : list row) : M unit :=
  match l with
  | NVXmlLoader => BaseLoader_load
  | NVPrecinctLoader => precinct_load rows
  | NVCountyLoader => county_load rows
  end.

(** Modelled from the spec: [BaseLoader.run], which keeps the mapping of
    the run as the loader's context and starts [load] on the rows of the
    run's file. *)
Definition BaseLoader_run (l : loader) (m : mapping) (rows : list row)
    : M unit :=
  set_mapping m;;
  load l rows.

(** The loader [LoadResults.run] picks (lines 25-31). *)
Definition select_loader (m : mapping) : loader :=
  let election_id := pre_processed_url m in
  if negb (bool_decide (raw_url m = lit "")) then NVXmlLoader
  else if Seq.contains (lit "precinct") election_id then NVPrecinctLoader
  else NVCountyLoader.

Definition run (m : mapping) (rows : list row) : M unit :=
  BaseLoader_run (select_loader m) m rows.
End Loaders.

(** ** Words of the specification *)

(** A text all of whose characters are white space. *)
Definition blank (s : str) : Prop := Forall (λ c, isspace c = true) s.

(** The text with the occurrences of a character removed. *)
Definition without (c : ascii) (s : str) : str :=
  filter (λ d, c ≠ d) (s : list ascii).

Definition is_digit (c : ascii) : bool :=
  let n := N_of_ascii c in ((48 <=? n) && (n <=? 57))%N.

Definition is_sign (c : ascii) : bool :=
  bool_decide (c = "+"%char) || bool_decide (c = "-"%char).

Definition digit_run (s : str) : bool :=
  match s with
  | [] => false
  | _ :: _ => forallb is_digit s
  end.

(** A numeric text: an optional sign before a run of decimal digits. *)
Definition numeric (s : str) : bool :=
  match s with
  | [] => false
  | c :: b => if is_sign c then digit_run b else digit_run s
  end.

(** The value of a run of digits, and the integer a numeric text denotes. *)
Definition decimal (s : str) : Z :=
  fold_left (λ acc c, 10 * acc + (Z.of_N (N_of_ascii c) - 48)) s 0.

Definition number (s : str) : Z :=
  match s with
  | [] => 0
  | c :: b =>
      if bool_decide (c = "-"%char) then - decimal b
      else if bool_decide (c = "+"%char) then decimal b
      else decimal s
  end.

Section LoaderWords.
Context `{Library}.

(** The loader once [load] has set up the common keyword arguments of a
    reporting level. *)
Definition prepared (level : str) (σ : state) : state :=
  {| self_mapping := self_mapping σ;
     self_common_kwargs :=
       <["reporting_level" := PStr level]>
         (_build_common_election_kwargs (self_mapping σ));
     inserted := inserted σ |}.

(** The store after one more insert call. *)
Definition committed (results : list dict) (σ : state) : state :=
  {| self_mapping := self_mapping σ;
     self_common_kwargs := self_common_kwargs σ;
     inserted := inserted σ ++ [results] |}.

(** What a row contributes: nothing when it is skipped, its record
    otherwise, or the exception it raises. *)
Definition precinct_turn (σ : state) (r : row) : result (option dict) :=
  skip ← precinct_skip_row r;
  if (skip : bool) then mret None else Some <$> (precinct_result r σ).1.

Definition county_turn (σ : state) (r : row) : result (option dict) :=
  skip ← county_skip_row r;
  if (skip : bool) then mret None else Some <$> (county_result r σ).1.

(** The party the specification gives a county record for a party cell. *)
Definition party_of_cell (cell : option str) : pyval :=
  match cell with
  | Some p =>
      if bool_decide (p ≠ [] ∧ p ≠ lit "&nbsp;") then PStr (strip p)
      else PNone
  | None => PNone
  end.
End LoaderWords.

(** ** Sample runs *)

Definition primary_precinct : mapping :=
  {| election := "nv-2012-06-12-primary";
     ocd_id := "ocd-division/country:us/state:nv/county:clark";
     name := "Clark";
     raw_url := "";
     pre_processed_url := "20120612__nv__primary__clark__precinct.csv" |}.

Definition general_county : mapping :=
  {| election := "nv-2012-11-06-general";
     ocd_id := "ocd-division/country:us/state:nv/county:washoe";
     name := "Washoe";
     raw_url := "";
     pre_processed_url := "20121106__nv__general__washoe.csv" |}.

Definition general_xml : mapping :=
  {| election := "nv-2014-11-04-general";
     ocd_id := "ocd-division/country:us/state:nv";
     name := "Nevada";
     raw_url := "http://www.nvsos.gov/results.xml";
     pre_processed_url := "" |}.

(** A stand-in for the imported functions: the type id lower-cases nothing
    and writes "_" for white space; the common keyword arguments carry the
    election id. *)
Definition sample_library : Library :=
  {| ocd_type_id := λ s, (λ c, if isspace c then "_"%char else c) <$> s;
     _build_common_election_kwargs := λ m,
       {[ "election_id" := PStr (election m) ]} |}.

Definition fresh (m : mapping) : state :=
  {| self_mapping := m; self_common_kwargs := ∅; inserted := [] |}.

Definition governor_row : row :=
  {[ "office" := Some (lit "GOVERNOR (DEM)");
     "candidate" := Some (lit "Jane Doe");
     "party" := Some (lit "DEM");
     "votes" := Some (lit "4,500");
     "precinct" := Some (lit "Ward 3") ]}.

Definition sheriff_row : row :=
  {[ "office" := Some (lit "SHERIFF (DEM)");
     "candidate" := Some (lit "Sam Poe");
     "party" := Some (lit "DEM");
     "votes" := Some (lit "12");
     "precinct" := Some (lit "Ward 3") ]}.

Definition senate_row : row :=
  {[ "office" := Some (lit "STATE SENATE, DISTRICT 5");
     "candidate" := Some (lit "John Roe");
     "party" := Some (lit " REP ");
     "votes" := Some (lit "1,234");
     "precinct" := Some (lit " Ward 4 ") ]}.

Definition blank_votes_row : row :=
  {[ "office" := Some (lit "STATE SENATE, DISTRICT 5");
     "candidate" := Some (lit "John Roe");
     "party" := Some (lit "");
     "votes" := Some (lit "");
     "precinct" := Some (lit "Ward 4") ]}.

Definition governor_record : dict :=
  {[ "election_id" := PStr "nv-2012-06-12-primary";
     "reporting_level" := PStr "precinct";
     "office" := PStr "GOVERNOR";
     "district" := PNone;
     "primary_party" := PStr "DEM";
     "party" := PStr "DEM";
     "full_name" := PStr "Jane Doe";
     "jurisdiction" := PStr "Ward 3";
     "ocd_id" :=
       PStr "ocd-division/country:us/state:nv/county:clark/precinct:Ward_3";
     "votes" := PInt 4500 ]}.

Definition senate_record : dict :=
  {[ "election_id" := PStr "nv-2012-11-06-general";
     "reporting_level" := PStr "county";
     "office" := PStr "STATE SENATE";
     "district" := PStr "DISTRICT 5";
     "primary_party" := PNone;
     "party" := PStr "REP";
     "full_name" := PStr "John Roe";
     "jurisdiction" := PStr "Washoe";
     "ocd_id" := PStr "ocd-division/country:us/state:nv/county:washoe";
     "votes" := PInt 1234 ]}.

(** * Facts *)

(** ** Sequences *)

Section SeqFacts.
Context {A : Type} `{EqDecision A}.
Implicit Types p s sep : list A.
Import Seq.

Lemma startswith_app p s : startswith p (p ++ s) = true.
Proof.
  induction p as [|a p IH]; simpl; [done|].
  rewrite bool_decide_eq_true_2 by done. exact IH.
Qed.

Lemma startswith_inv p s :
  startswith p s = true → s = p ++ drop (length p) s.
Proof.
  revert s. induction p as [|a p IH]; intros [|b s]; simpl; try done.
  intros [Hab Hp]%andb_prop. apply bool_decide_eq_true_1 in Hab.
  subst b. f_equal. by apply IH.
Qed.

Lemma startswith_nil_r p : p ≠ [] → startswith p [] = false.
Proof. by destruct p. Qed.

Lemma contains_nil_r p : p ≠ [] → contains p [] = false.
Proof. by destruct p. Qed.

Lemma contains_cons p a s :
  contains p (a :: s) = startswith p (a :: s) || contains p s.
Proof. done. Qed.

Lemma startswith_contains p s : startswith p s = true → contains p s = true.
Proof. intros Hp. destruct s; simpl; by rewrite Hp. Qed.

(** [p in s] holds exactly when [s] has an occurrence of [p]. *)
Lemma contains_occurs p s :
  contains p s = true ↔ ∃ l r, s = l ++ p ++ r.
Proof.
  split.
  - induction s as [|a s IH]; simpl.
    + rewrite orb_false_r. intros Hp%startswith_inv.
      exists [], (drop (length p) []). exact Hp.
    + intros [Hp|Hc]%orb_prop.
      * apply startswith_inv in Hp. by exists [], (drop (length p) (a :: s)).
      * destruct (IH Hc) as (l & r & ->). by exists (a :: l), r.
  - intros (l & r & ->). induction l as [|a l IH]; simpl.
    + apply startswith_contains, startswith_app.
    + rewrite IH. apply orb_true_r.
Qed.

Lemma contains_app_r p l s : contains p s = true → contains p (l ++ s) = true.
Proof.
  intros (a & b & ->)%contains_occurs. apply contains_occurs.
  exists (l ++ a), b. by rewrite <- app_assoc.
Qed.

Lemma contains_app_l p s r : contains p s = true → contains p (s ++ r) = true.
Proof.
  intros (a & b & ->)%contains_occurs. apply contains_occurs.
  exists a, (b ++ r). by rewrite <- !app_assoc.
Qed.

(** [find] returns the length of the text before the lowest occurrence. *)
Lemma find_before sep s :
  find sep s = if contains sep s then Some (length (before sep s)) else None.
Proof.
  induction s as [|a s IH]; simpl.
  - by destruct (startswith sep []).
  - destruct (startswith sep (a :: s)); simpl; [done|].
    rewrite IH. by destruct (contains sep s).
Qed.

Lemma before_after sep s :
  contains sep s = true → s = before sep s ++ sep ++ after sep s.
Proof.
  induction s as [|a s IH]; simpl.
  - rewrite orb_false_r. intros Hp. rewrite Hp. simpl.
    by apply startswith_inv.
  - destruct (startswith sep (a :: s)) eqn:Hp; simpl.
    + intros _. by apply startswith_inv.
    + intros Hc. f_equal. by apply IH.
Qed.

Lemma before_absent sep s : contains sep s = false → before sep s = s.
Proof.
  induction s as [|a s IH]; simpl.
  - by destruct (startswith sep []).
  - intros [Hp Hc]%orb_false_elim. rewrite Hp. f_equal. by apply IH.
Qed.

(** No occurrence of [sep] starts inside [before sep s]. *)
Lemma before_lowest sep s i :
  (i < length (before sep s))%nat → startswith sep (drop i s) = false.
Proof.
  revert i. induction s as [|a s IH]; intros i; simpl.
  - destruct (startswith sep []); simpl; lia.
  - destruct (startswith sep (a :: s)) eqn:Hp; simpl; [lia|].
    destruct i as [|i]; simpl; [done|]. intros Hi. apply IH. lia.
Qed.

Lemma take_before sep s :
  take (length (before sep s)) s = before sep s.
Proof.
  induction s as [|a s IH]; simpl.
  - by destruct (startswith sep []).
  - destruct (startswith sep (a :: s)); simpl; [done|]. by f_equal.
Qed.

Lemma drop_before sep s :
  contains sep s = true →
  drop (length (before sep s) + length sep) s = after sep s.
Proof.
  induction s as [|a s IH]; simpl.
  - rewrite orb_false_r. intros Hp. by rewrite Hp.
  - destruct (startswith sep (a :: s)) eqn:Hp; simpl; [done|]. apply IH.
Qed.

Lemma after_shorter sep s :
  sep ≠ [] → contains sep s = true →
  (length (after sep s) < length s)%nat.
Proof.
  intros Hsep Hc. rewrite (before_after sep s Hc) at 2.
  rewrite !length_app. destruct sep; [done|]. simpl. lia.
Qed.

Lemma split_fuel_step n sep s :
  split_fuel n sep s =
    if contains sep s then
      before sep s ::
      match n with
      | O => []
      | S n' => split_fuel n' sep (after sep s)
      end
    else [s].
Proof.
  destruct n; simpl; rewrite find_before;
    destruct (contains sep s) eqn:Hc; try done;
    by rewrite take_before, ?drop_before.
Qed.

Lemma split_fuel_enough sep n k s :
  sep ≠ [] → (length s ≤ n)%nat → (length s ≤ k)%nat →
  split_fuel n sep s = split_fuel k sep s.
Proof.
  intros Hsep. revert k s.
  induction n as [|n IH]; intros k s Hn Hk;
    rewrite (split_fuel_step _ sep s), (split_fuel_step k sep s);
    destruct (contains sep s) eqn:Hc; try done;
    pose proof (after_shorter sep s Hsep Hc).
  - lia.
  - destruct k; [lia|]. f_equal. apply IH; lia.
Qed.

(** The equation of [split]: the first part is the text before the lowest
    occurrence of the separator, the other parts those of the text after
    it. *)
Lemma split_step sep s :
  sep ≠ [] →
  split sep s =
    if contains sep s then before sep s :: split sep (after sep s)
    else [s].
Proof.
  intros Hsep. unfold split. rewrite split_fuel_step.
  destruct (contains sep s) eqn:Hc; [|done].
  pose proof (after_shorter sep s Hsep Hc).
  destruct (length s) as [|n] eqn:E; [lia|].
  f_equal. apply split_fuel_enough; [done|lia|lia].
Qed.

Lemma split_item0 sep s : sep ≠ [] → item (split sep s) 0 = Ok (before sep s).
Proof.
  intros Hsep. rewrite split_step by done.
  destruct (contains sep s) eqn:Hc; [done|].
  by rewrite before_absent.
Qed.

Lemma split_item1 sep s :
  sep ≠ [] →
  item (split sep s) 1 =
    if contains sep s then Ok (before sep (after sep s))
    else Raise IndexError.
Proof.
  intros Hsep. rewrite split_step by done.
  destruct (contains sep s) eqn:Hc; [|done].
  change (item (before sep s :: split sep (after sep s)) 1)
    with (item (split sep (after sep s)) 0).
  by apply split_item0.
Qed.

(** Joining the parts with the separator gives the text back. *)
Lemma join_split_fuel sep n s :
  sep ≠ [] → (length s ≤ n)%nat → join sep (split_fuel n sep s) = s.
Proof.
  intros Hsep. revert s.
  induction n as [|n IH]; intros s Hn; rewrite (split_fuel_step _ sep s);
    destruct (contains sep s) eqn:Hc; try done;
    pose proof (after_shorter sep s Hsep Hc); [lia|].
  specialize (IH (after sep s) ltac:(lia)).
  simpl. destruct (split_fuel n sep (after sep s)) as [|q qs] eqn:E.
  - rewrite split_fuel_step in E. by destruct (contains sep (after sep s)).
  - rewrite IH. symmetry. by apply before_after.
Qed.

(** Separators of one character. *)
Lemma startswith1 (c : A) s :
  startswith [c] s = match s with
                     | [] => false
                     | d :: _ => bool_decide (c = d)
                     end.
Proof. destruct s; simpl; [done|]. by rewrite andb_true_r. Qed.

Lemma contains1 (c : A) s : contains [c] s = bool_decide (c ∈ s).
Proof.
  induction s as [|d s IH]; [done|].
  rewrite contains_cons, startswith1, IH.
  destruct (decide (c = d)) as [->|Hne].
  - rewrite (bool_decide_eq_true_2 (d = d)) by done. simpl.
    symmetry. apply bool_decide_eq_true_2. constructor.
  - rewrite (bool_decide_eq_false_2 (c = d)) by done. simpl.
    apply bool_decide_ext. rewrite elem_of_cons. tauto.
Qed.

Lemma before1_app (c : A) l s :
  c ∉ l → before [c] (l ++ s) = l ++ before [c] s.
Proof.
  induction l as [|d l IH]; [done|].
  intros [Hne Hl]%not_elem_of_cons. simpl app.
  change (before [c] (d :: l ++ s))
    with (if startswith [c] (d :: l ++ s) then []
          else d :: before [c] (l ++ s)).
  rewrite startswith1, bool_decide_eq_false_2 by done.
  f_equal. by apply IH.
Qed.

Lemma before1_hit (c : A) s : before [c] (c :: s) = [].
Proof.
  change (before [c] (c :: s))
    with (if startswith [c] (c :: s) then [] else c :: before [c] s).
  by rewrite startswith1, bool_decide_eq_true_2.
Qed.


(** Replacing a character by nothing removes its occurrences. *)
Lemma replace1_nil (c : A) s :
  replace [c] [] s = filter (λ d, c ≠ d) s.
Proof.
  unfold replace, split.
  assert (∀ n s, (length s ≤ n)%nat →
            join [] (split_fuel n [c] s) = filter (λ d, c ≠ d) s) as Hn.
  { clear s. induction n as [|n IH]; intros s Hs.
    - destruct s; [done|simpl in Hs; lia].
    - rewrite split_fuel_step. destruct (contains [c] s) eqn:Hc.
      + pose proof (after_shorter [c] s ltac:(done) Hc) as Hlt.
        pose proof (before_after [c] s Hc) as Hs'.
        pose proof (IH (after [c] s) ltac:(lia)) as IH'.
        assert (c ∉ before [c] s) as Hb.
        { intros Hin. apply list_elem_of_lookup in Hin as [i Hi].
          pose proof (lookup_lt_Some _ _ _ Hi) as Hlen.
          pose proof (before_lowest [c] s i Hlen) as Hsw.
          rewrite Hs' in Hsw. rewrite drop_app_le in Hsw by lia.
          rewrite (drop_S _ c i) in Hsw by done.
          simpl in Hsw. by rewrite bool_decide_eq_true_2 in Hsw. }
        transitivity (filter (λ d, c ≠ d) (before [c] s ++ [c] ++ after [c] s));
          [|by rewrite <- Hs'].
        rewrite filter_app. simpl app.
        rewrite filter_cons_False by (intros Hcc; by apply Hcc).
        rewrite <- IH'.
        assert (filter (λ d, c ≠ d) (before [c] s) = before [c] s) as ->.
        { clear -Hb. induction (before [c] s) as [|d l IHl]; [done|].
          apply not_elem_of_cons in Hb as [Hne Hl].
          rewrite filter_cons_True by done. f_equal. by apply IHl. }
        simpl. destruct (split_fuel n [c] (after [c] s)) eqn:E; [|done].
        rewrite split_fuel_step in E.
        by destruct (contains [c] (after [c] s)).
      + simpl. rewrite contains1 in Hc. apply bool_decide_eq_false_1 in Hc.
        clear -Hc. induction s as [|d l IHl]; [done|].
        apply not_elem_of_cons in Hc as [Hne Hl].
        rewrite filter_cons_True by done. f_equal. by apply IHl. }
  by apply Hn.
Qed.
End SeqFacts.

(** ** Trimming *)

Section StripFacts.
Implicit Types s l t : str.

Lemma lstrip_split s : ∃ a, s = a ++ lstrip s ∧ blank a.
Proof.
  induction s as [|c s (a & Ha & Hb)].
  { exists []. split; [done|constructor]. }
  simpl. destruct (isspace c) eqn:Hc.
  - exists (c :: a). split; [simpl; by f_equal|by constructor].
  - exists []. split; [done|constructor].
Qed.

Lemma lstrip_blank a s : blank a → lstrip (a ++ s) = lstrip s.
Proof. induction 1 as [|c a Hc _ IH]; simpl; [done|]. by rewrite Hc. Qed.

Lemma lstrip_solid c s : isspace c = false → lstrip (c :: s) = c :: s.
Proof. intros Hc. simpl. by rewrite Hc. Qed.

Lemma lstrip_app l c t :
  isspace c = false → lstrip (l ++ c :: t) = lstrip l ++ c :: t.
Proof.
  intros Hc. induction l as [|d l IH]; simpl.
  - by rewrite Hc.
  - by destruct (isspace d).
Qed.

Lemma lstrip_head s c t : lstrip s = c :: t → isspace c = false.
Proof.
  induction s as [|d s IH]; simpl; [done|].
  destruct (isspace d) eqn:Hd; [done|]. by intros [= -> _].
Qed.

Lemma lstrip_nil s : lstrip s = [] ↔ blank s.
Proof.
  split.
  - intros Hs. destruct (lstrip_split s) as (a & Ha & Hb).
    rewrite Hs, app_nil_r in Ha. by subst a.
  - intros Hs. rewrite <- (app_nil_r s). by rewrite lstrip_blank.
Qed.

Lemma lstrip_idemp s : lstrip (lstrip s) = lstrip s.
Proof.
  destruct (lstrip s) as [|c t] eqn:E; [done|].
  apply lstrip_solid. by eapply lstrip_head.
Qed.

Lemma blank_rev s : blank s → blank (rev s).
Proof. unfold blank. rewrite !Forall_forall. intros Hs c Hc.
  apply Hs. by apply list_elem_of_In, in_rev, list_elem_of_In. Qed.

Lemma rstrip_split s : ∃ b, s = rstrip s ++ b ∧ blank b.
Proof.
  destruct (lstrip_split (rev s)) as (a & Ha & Hb).
  exists (rev a). split; [|by apply blank_rev].
  unfold rstrip. rewrite <- rev_app_distr, <- Ha. by rewrite rev_involutive.
Qed.

Lemma rstrip_app l c t :
  isspace c = false → rstrip (l ++ c :: t) = l ++ c :: rstrip t.
Proof.
  intros Hc. unfold rstrip.
  rewrite rev_app_distr. simpl rev. rewrite <- app_assoc. simpl app.
  rewrite lstrip_app by done.
  rewrite rev_app_distr. simpl rev.
  rewrite rev_involutive, <- !app_assoc. done.
Qed.

Lemma rstrip_blank s : blank s → rstrip s = [].
Proof.
  intros Hs. unfold rstrip.
  apply blank_rev, lstrip_nil in Hs. by rewrite Hs.
Qed.

Lemma rstrip_idemp s : rstrip (rstrip s) = rstrip s.
Proof. unfold rstrip. by rewrite rev_involutive, lstrip_idemp. Qed.

(** Trimming a text with a solid character in it trims around it. *)
Lemma strip_app l c t :
  isspace c = false → strip (l ++ c :: t) = lstrip l ++ c :: rstrip t.
Proof.
  intros Hc. unfold strip. rewrite lstrip_app by done.
  by apply rstrip_app.
Qed.

Lemma strip_blank s : blank s → strip s = [].
Proof. intros Hs%lstrip_nil. unfold strip. by rewrite Hs. Qed.

Lemma strip_cases s :
  (blank s ∧ strip s = []) ∨
  (∃ a c t, s = a ++ c :: t ∧ blank a ∧ isspace c = false ∧
            strip s = c :: rstrip t).
Proof.
  destruct (lstrip_split s) as (a & Ha & Hb).
  destruct (lstrip s) as [|c t] eqn:E.
  - left. rewrite app_nil_r in Ha. subst a. split; [done|].
    by apply strip_blank.
  - right. exists a, c, t. pose proof (lstrip_head _ _ _ E) as Hc.
    repeat split; try done.
    unfold strip. rewrite E. by apply (rstrip_app []).
Qed.

Lemma strip_nil s : strip s = [] ↔ blank s.
Proof.
  split; [|apply strip_blank].
  destruct (strip_cases s) as [[Hs _]|(a & c & t & _ & _ & _ & ->)]; done.
Qed.

Lemma strip_idemp s : strip (strip s) = strip s.
Proof.
  destruct (strip_cases s) as [[_ ->]|(a & c & t & _ & _ & Hc & ->)]; [done|].
  pose proof (strip_app [] c (rstrip t) Hc) as E. simpl in E.
  by rewrite E, rstrip_idemp.
Qed.

(** The text is its trimmed form between two blank margins. *)
Lemma strip_split s : ∃ a b, s = a ++ strip s ++ b ∧ blank a ∧ blank b.
Proof.
  destruct (lstrip_split s) as (a & Ha & Hb).
  destruct (rstrip_split (lstrip s)) as (b & Hb' & Hbb).
  exists a, b. repeat split; try done.
  unfold strip. by rewrite <- Hb'.
Qed.

Lemma elem_of_strip c s : isspace c = false → c ∈ strip s ↔ c ∈ s.
Proof.
  intros Hc. destruct (strip_split s) as (a & b & Hs & Ha & Hb).
  rewrite Hs at 2. rewrite !elem_of_app.
  assert (∀ l, blank l → c ∉ l) as Hno.
  { intros l Hl Hin. unfold blank in Hl. rewrite Forall_forall in Hl.
    specialize (Hl c Hin). congruence. }
  specialize (Hno a Ha) as Hna. specialize (Hno b Hb) as Hnb. tauto.
Qed.

Lemma contains1_strip c s :
  isspace c = false → Seq.contains [c] (strip s) = Seq.contains [c] s.
Proof.
  intros Hc. rewrite !contains1. apply bool_decide_ext.
  by apply elem_of_strip.
Qed.
End StripFacts.

(** ** Parsing the office column *)

Lemma bind_Ok {A B} (a : A) (f : A → result B) : (Ok a ≫= f) = f a.
Proof. done. Qed.

Lemma bind_Raise {A B} (e : exn) (f : A → result B) : (Raise e ≫= f) = Raise e.
Proof. done. Qed.

Lemma text_cell (r : row) (key : string) (s : str) :
  r !! key = Some (Some s) → text r key = Ok s.
Proof. intros Hr. unfold text, getitem. by rewrite Hr. Qed.

Ltac solid := intros; cbv; discriminate.

(** Resolve the next indexing of a split and the bind around it. *)
Ltac parts :=
  repeat first
    [ rewrite bind_Ok
    | rewrite bind_Raise
    | rewrite split_item0 by solid
    | rewrite split_item1 by solid ].

Section ContestFacts.
Variables (m : mapping) (r : row) (o : str).
Hypothesis cell : r !! "office" = Some (Some o).

Lemma general_district :
  Seq.contains (lit "primary") (election m) = false →
  Seq.contains (codes "DISTRICT") (upper o) = true →
  _build_contest_kwargs m r =
    if Seq.contains (lit ", ") o then
      Ok (contest (strip (Seq.before (lit ", ") o))
            (PStr (strip (Seq.before (lit ", ") (Seq.after (lit ", ") o))))
            PNone)
    else Raise IndexError.
Proof.
  intros Hm Hd. unfold _build_contest_kwargs.
  rewrite Hm, (text_cell _ _ _ cell). parts. rewrite Hd. parts.
  destruct (Seq.contains (lit ", ") o); by parts.
Qed.

Lemma general_plain :
  Seq.contains (lit "primary") (election m) = false →
  Seq.contains (codes "DISTRICT") (upper o) = false →
  _build_contest_kwargs m r = Ok (contest (strip o) PNone PNone).
Proof.
  intros Hm Hd. unfold _build_contest_kwargs.
  rewrite Hm, (text_cell _ _ _ cell). parts. rewrite Hd. by parts.
Qed.

(** The primary branch, step by step: the party needs a "(", the district
    of a DISTRICT office a ", ". *)
Lemma primary_steps :
  Seq.contains (lit "primary") (election m) = true →
  _build_contest_kwargs m r =
    if Seq.contains (lit "(") o then
      let office :=
        strip (Seq.before (lit ", ") (Seq.before (lit "(") o)) in
      let party :=
        Seq.before (lit ")")
          (Seq.before (lit "(") (Seq.after (lit "(") (strip o))) in
      if Seq.contains (codes "DISTRICT") (upper o) then
        if Seq.contains (lit ", ") o then
          Ok (contest office
                (PStr (strip (Seq.before (lit " (")
                                (Seq.before (lit ", ")
                                   (Seq.after (lit ", ") o)))))
                (PStr party))
        else Raise IndexError
      else Ok (contest office PNone (PStr party))
    else Raise IndexError.
Proof.
  intros Hm. unfold _build_contest_kwargs.
  rewrite Hm, (text_cell _ _ _ cell). parts.
  change (lit "(") with ["("%char].
  rewrite (contains1_strip "("%char o) by done.
  destruct (Seq.contains ["("%char] o); parts; [|done].
  destruct (Seq.contains (codes "DISTRICT") (upper o)); parts; [|done].
  destruct (Seq.contains (lit ", ") o); by parts.
Qed.
End ContestFacts.





(** C2 (as amended).  Outside primaries the primary party and the party are
    None.  When the upper-cased office text contains DISTRICT and the text
    has a ", ": the office is the text before the first ", ", trimmed, and
    the district the text between the first ", " and the next one (or the
    end), trimmed.  Without DISTRICT: the office is the whole text, trimmed,
    and the district None. *)
Theorem general_office_parse (m : mapping) (r : row) (o : str) :
  Seq.contains (lit "primary") (election m) = false →
  r !! "office" = Some (Some o) →
  (Seq.contains (codes "DISTRICT") (upper o) = true →
   Seq.contains (lit ", ") o = true →
   _build_contest_kwargs m r =
     Ok (contest (strip (Seq.before (lit ", ") o))
           (PStr (strip (Seq.before (lit ", ") (Seq.after (lit ", ") o))))
           PNone)) ∧
  (Seq.contains (codes "DISTRICT") (upper o) = false →
   _build_contest_kwargs m r = Ok (contest (strip o) PNone PNone)).
Proof.
  intros Hm Hr. split.
  - intros Hd Hsep. rewrite (general_district m r o Hr Hm Hd). by rewrite Hsep.
  - intros Hd. by apply general_plain.
Qed.

(** C10.  In a primary election the contest fields of an office text
    without "(", and of one whose upper-cased form contains DISTRICT but
    which has no ", ", are not returned: the indexing of the split raises
    IndexError. *)
Theorem primary_office_parse_partial (m : mapping) (r : row) (o : str) :
  Seq.contains (lit "primary") (election m) = true →
  r !! "office" = Some (Some o) →
  Seq.contains (lit "(") o = false ∨
  (Seq.contains (codes "DISTRICT") (upper o) = true ∧
   Seq.contains (lit ", ") o = false) →
  _build_contest_kwargs m r = Raise IndexError.
Proof.
  intros Hm Hr Hbad. rewrite (primary_steps m r o Hr Hm).
  destruct (Seq.contains (lit "(") o); [|done].
  destruct Hbad as [|[-> ->]]; done.
Qed.

(** C3.  For a row whose office cell is a text, the skip predicate of the
    precinct loader and that of the county loader return, without failing,
    true exactly when the text before the first comma, trimmed and
    upper-cased, is not one of the tracked offices. *)
Theorem skip_row_tracked (r : row) (o : str) :
  r !! "office" = Some (Some o) →
  ∃ b : bool,
    precinct_skip_row r = Ok b ∧
    county_skip_row r = Ok b ∧
    (b = true ↔ upper (strip (Seq.before (lit ",") o)) ∉ target_offices).
Proof.
  intros Hr.
  exists (negb (bool_decide (upper (strip (Seq.before (lit ",") o))
                              ∈ target_offices))).
  unfold precinct_skip_row, county_skip_row.
  rewrite (text_cell _ _ _ Hr). parts. split; [done|]. split; [done|].
  by rewrite negb_true_iff, bool_decide_eq_false.
Qed.

(** ** Vote counts *)

Section VoteFacts.
Implicit Types s t v : str.

Lemma digit_is_digit c :
  digit c = if is_digit c then Some (Z.of_N (N_of_ascii c) - 48) else None.
Proof. done. Qed.

Lemma digits_all acc s :
  forallb is_digit s = true →
  digits acc s =
    Some (fold_left (λ a c, 10 * a + (Z.of_N (N_of_ascii c) - 48)) s acc).
Proof.
  revert acc. induction s as [|c s IH]; intros acc; simpl; [done|].
  intros [Hc Hs]%andb_prop. rewrite digit_is_digit, Hc. by apply IH.
Qed.

Lemma digits_some acc s :
  forallb is_digit s = false → digits acc s = None.
Proof.
  revert acc. induction s as [|c s IH]; intros acc; simpl; [done|].
  rewrite digit_is_digit. destruct (is_digit c); simpl; [apply IH|done].
Qed.

Lemma unsigned_run s :
  unsigned s = if digit_run s then Ok (decimal s) else Raise ValueError.
Proof.
  destruct s as [|c s]; [done|]. unfold unsigned, digit_run.
  destruct (forallb is_digit (c :: s)) eqn:E.
  - by rewrite digits_all.
  - by rewrite digits_some.
Qed.

(** [int] on a text that is already trimmed. *)
Lemma int_trimmed t :
  strip t = t →
  int t = if numeric t then Ok (number t) else Raise ValueError.
Proof.
  intros Ht. unfold int. rewrite Ht. destruct t as [|c b]; [done|].
  unfold numeric, number, is_sign.
  destruct (bool_decide (c = "+"%char)) eqn:Hp.
  - apply bool_decide_eq_true_1 in Hp. subst c.
    rewrite (bool_decide_eq_false_2 ("+"%char = "-"%char)) by done.
    cbn [orb]. rewrite unsigned_run. by destruct (digit_run b).
  - destruct (bool_decide (c = "-"%char)) eqn:Hn; cbn [orb].
    + rewrite unsigned_run. by destruct (digit_run b).
    + by rewrite unsigned_run.
Qed.

Lemma without_blank c s : isspace c = false → blank s → without c s = s.
Proof.
  intros Hc. induction 1 as [|d s Hd _ IH]; [done|].
  unfold without. rewrite filter_cons_True by congruence.
  f_equal. exact IH.
Qed.

Lemma remove_commas v : Seq.replace (lit ",") (lit "") v = without "," v.
Proof. apply (replace1_nil (","%char)). Qed.

Lemma county_votes_int r v :
  r !! "votes" = Some (Some v) →
  county_votes r =
    let t := strip (without "," v) in
    if numeric t then Ok (PInt (number t)) else Raise ValueError.
Proof.
  intros Hr. unfold county_votes.
  rewrite (text_cell _ _ _ Hr), bind_Ok, remove_commas.
  rewrite int_trimmed by apply strip_idemp. cbv zeta.
  by destruct (numeric _).
Qed.

Lemma precinct_votes_int r v :
  r !! "votes" = Some (Some v) →
  precinct_votes r =
    if bool_decide (strip v = []) then Ok (PStr "N/A")
    else county_votes r.
Proof.
  intros Hr. unfold precinct_votes, county_votes.
  rewrite (text_cell _ _ _ Hr), !bind_Ok. done.
Qed.

Lemma blank_votes v : strip v = [] → strip (without "," v) = [].
Proof.
  intros Hv. apply strip_nil in Hv as Hb.
  by rewrite without_blank.
Qed.
End VoteFacts.

(** C4.  A votes text that is numeric once its commas are removed and it is
    trimmed is parsed to the integer it denotes, by the precinct loader and
    by the county loader; a votes text that is blank after trimming gives
    "N/A" at precinct level and raises ValueError at county level; a
    remainder that is not numeric raises ValueError at county level, and at
    precinct level too unless the votes text is blank. *)
Theorem votes_normalisation (r : row) (v : str) :
  r !! "votes" = Some (Some v) →
  let t := strip (without "," v) in
  (numeric t = true →
   precinct_votes r = Ok (PInt (number t)) ∧
   county_votes r = Ok (PInt (number t))) ∧
  (strip v = [] →
   precinct_votes r = Ok (PStr "N/A") ∧ county_votes r = Raise ValueError) ∧
  (numeric t = false →
   county_votes r = Raise ValueError ∧
   (strip v ≠ [] → precinct_votes r = Raise ValueError)).
Proof.
  intros Hr t.
  pose proof (county_votes_int r v Hr) as Hc.
  pose proof (precinct_votes_int r v Hr) as Hp.
  cbv zeta in Hc. fold t in Hc.
  split; [|split].
  - intros Hnum. split; [|by rewrite Hc, Hnum].
    rewrite Hp, Hc, Hnum. rewrite bool_decide_eq_false_2; [done|].
    intros Hv%blank_votes. fold t in Hv. by rewrite Hv in Hnum.
  - intros Hblank. split; [by rewrite Hp, bool_decide_eq_true_2|].
    rewrite Hc. apply blank_votes in Hblank. fold t in Hblank.
    by rewrite Hblank.
  - intros Hnum. split; [by rewrite Hc, Hnum|].
    intros Hv. by rewrite Hp, bool_decide_eq_false_2, Hc, Hnum.
Qed.

(** ** The loaders *)

Ltac run_M :=
  cbv beta iota delta
    [mbind M_bind get lift mret M_ret set_common_kwargs set_mapping
     insert_results];
  cbn [self_mapping self_common_kwargs inserted fst snd].

Section LoaderFacts.
Context `{Library}.

(** Building a record reads the loader and leaves it as it was. *)
Lemma precinct_result_state r σ : (precinct_result r σ).2 = σ.
Proof.
  unfold precinct_result. run_M.
  destruct (_build_contest_kwargs _ r); [|done].
  destruct (_build_candidate_kwargs r); [|done].
  destruct (text r "precinct"); [|done].
  by destruct (precinct_votes r).
Qed.

Lemma county_result_state r σ : (county_result r σ).2 = σ.
Proof.
  unfold county_result. run_M.
  destruct (_build_contest_kwargs _ r); [|done].
  destruct (_build_candidate_kwargs r); [|done].
  destruct (county_party r); [|done].
  by destruct (county_votes r).
Qed.

Lemma precinct_rows_ok σ rows outs acc :
  Forall2 (λ r out, precinct_turn σ r = Ok out) rows outs →
  precinct_rows rows acc σ = (Ok (acc ++ omap id outs), σ).
Proof.
  intros HF. revert acc.
  induction HF as [|r out rows outs Hr _ IH]; intros acc.
  - simpl. by rewrite app_nil_r.
  - cbn [precinct_rows]. unfold precinct_turn in Hr. run_M.
    destruct (precinct_skip_row r) as [[|]|e]; [| |done].
    + injection Hr as <-. apply IH.
    + pose proof (precinct_result_state r σ) as Hσ.
      destruct (precinct_result r σ) as [[rec|e] σ']; [|done].
      simpl in Hσ. subst σ'. injection Hr as <-.
      rewrite IH. simpl. by rewrite <- app_assoc.
Qed.

Lemma precinct_rows_fail σ rows acc r e :
  r ∈ rows → precinct_turn σ r = Raise e →
  ∃ e', precinct_rows rows acc σ = (Raise e', σ).
Proof.
  intros Hin Hr. revert acc.
  induction rows as [|a rows IH]; intros acc; [by apply elem_of_nil in Hin|].
  cbn [precinct_rows]. run_M.
  assert (precinct_turn σ a ≠ Raise e → r ∈ rows) as Hrest.
  { intros Ha. apply elem_of_cons in Hin as [->|Hin]; done. }
  unfold precinct_turn in Hrest.
  destruct (precinct_skip_row a) as [[|]|e0]; [| |by exists e0].
  - apply IH, Hrest. done.
  - pose proof (precinct_result_state a σ) as Hσ.
    destruct (precinct_result a σ) as [[rec|e1] σ']; simpl in Hσ; subst σ'.
    + apply IH, Hrest. done.
    + by exists e1.
Qed.

Lemma county_rows_ok σ rows outs acc :
  Forall2 (λ r out, county_turn σ r = Ok out) rows outs →
  county_rows rows acc σ = (Ok (acc ++ omap id outs), σ).
Proof.
  intros HF. revert acc.
  induction HF as [|r out rows outs Hr _ IH]; intros acc.
  - simpl. by rewrite app_nil_r.
  - cbn [county_rows]. unfold county_turn in Hr. run_M.
    destruct (county_skip_row r) as [[|]|e]; [| |done].
    + injection Hr as <-. apply IH.
    + pose proof (county_result_state r σ) as Hσ.
      destruct (county_result r σ) as [[rec|e] σ']; [|done].
      simpl in Hσ. subst σ'. injection Hr as <-.
      rewrite IH. simpl. by rewrite <- app_assoc.
Qed.

Lemma county_rows_fail σ rows acc r e :
  r ∈ rows → county_turn σ r = Raise e →
  ∃ e', county_rows rows acc σ = (Raise e', σ).
Proof.
  intros Hin Hr. revert acc.
  induction rows as [|a rows IH]; intros acc; [by apply elem_of_nil in Hin|].
  cbn [county_rows]. run_M.
  assert (county_turn σ a ≠ Raise e → r ∈ rows) as Hrest.
  { intros Ha. apply elem_of_cons in Hin as [->|Hin]; done. }
  unfold county_turn in Hrest.
  destruct (county_skip_row a) as [[|]|e0]; [| |by exists e0].
  - apply IH, Hrest. done.
  - pose proof (county_result_state a σ) as Hσ.
    destruct (county_result a σ) as [[rec|e1] σ']; simpl in Hσ; subst σ'.
    + apply IH, Hrest. done.
    + by exists e1.
Qed.

Lemma precinct_load_rows rows σ :
  precinct_load rows σ =
    match precinct_rows rows [] (prepared (lit "precinct") σ) with
    | (Ok results, σ') => (Ok (), committed results σ')
    | (Raise e, σ') => (Raise e, σ')
    end.
Proof. done. Qed.

Lemma county_load_rows rows σ :
  county_load rows σ =
    match county_rows rows [] (prepared (lit "county") σ) with
    | (Ok results, σ') => (Ok (), committed results σ')
    | (Raise e, σ') => (Raise e, σ')
    end.
Proof. done. Qed.
End LoaderFacts.

Lemma text_inv (r : row) (key : string) (s : str) :
  text r key = Ok s → r !! key = Some (Some s).
Proof.
  unfold text, getitem. destruct (r !! key) as [[t|]|]; try done.
  by intros [= ->].
Qed.

Lemma county_party_cell (r : row) (v : pyval) :
  county_party r = Ok v →
  ∃ cell, r !! "party" = Some cell ∧ v = party_of_cell cell.
Proof.
  unfold county_party, text, getitem.
  destruct (r !! "party") as [cell|]; [|done].
  rewrite !bind_Ok. intros Hv. exists cell. split; [done|].
  destruct cell as [[|c p]|]; cbn [truthy party_of_cell] in *.
  - rewrite bool_decide_eq_false_2 by tauto. by injection Hv.
  - destruct (decide (c :: p = lit "&nbsp;")) as [Heq|Hne].
    + rewrite bool_decide_eq_true_2 in Hv by congruence.
      rewrite bool_decide_eq_false_2 by tauto. by injection Hv.
    + rewrite bool_decide_eq_false_2 in Hv by congruence.
      rewrite bool_decide_eq_true_2 by done. by injection Hv.
  - by injection Hv.
Qed.

Section LoaderClaims.
Context `{Library}.

(** C5.  A load whose rows all go through makes one insert call, with the
    records of the rows that are not skipped, in the order of the input;
    a load one of whose rows raises ends with an exception and has made
    no insert call.  This holds for the precinct and the county loader. *)
Theorem load_single_insert (rows : list row) (σ : state) :
  let p := prepared (lit "precinct") σ in
  let c := prepared (lit "county") σ in
  (∀ outs, Forall2 (λ r out, precinct_turn p r = Ok out) rows outs →
     ∃ σ', precinct_load rows σ = (Ok (), σ') ∧
           inserted σ' = inserted σ ++ [omap id outs]) ∧
  (∀ r e, r ∈ rows → precinct_turn p r = Raise e →
     ∃ e' σ', precinct_load rows σ = (Raise e', σ') ∧
              inserted σ' = inserted σ) ∧
  (∀ outs, Forall2 (λ r out, county_turn c r = Ok out) rows outs →
     ∃ σ', county_load rows σ = (Ok (), σ') ∧
           inserted σ' = inserted σ ++ [omap id outs]) ∧
  (∀ r e, r ∈ rows → county_turn c r = Raise e →
     ∃ e' σ', county_load rows σ = (Raise e', σ') ∧
              inserted σ' = inserted σ).
Proof.
  intros p c. repeat split.
  - intros outs HF. rewrite precinct_load_rows.
    fold p. rewrite (precinct_rows_ok p rows outs [] HF).
    by eexists.
  - intros r e Hin Hr. rewrite precinct_load_rows. fold p.
    destruct (precinct_rows_fail p rows [] r e Hin Hr) as [e' ->].
    by exists e', p.
  - intros outs HF. rewrite county_load_rows.
    fold c. rewrite (county_rows_ok c rows outs [] HF).
    by eexists.
  - intros r e Hin Hr. rewrite county_load_rows. fold c.
    destruct (county_rows_fail c rows [] r e Hin Hr) as [e' ->].
    by exists e', c.
Qed.

(** C6.  The party of the record of a county row is the trimmed party
    cell when the cell is a non-empty text other than "&nbsp;", and None
    otherwise. *)
Theorem county_party_field (σ σ' : state) (r : row) (rec : dict) :
  county_result r σ = (Ok rec, σ') →
  ∃ cell, r !! "party" = Some cell ∧
          rec !! "party" = Some (party_of_cell cell).
Proof.
  unfold county_result. run_M.
  destruct (_build_contest_kwargs _ r); [|done].
  destruct (_build_candidate_kwargs r); [|done].
  destruct (county_party r) as [party|] eqn:Hp; [|done].
  destruct (county_votes r); [|done].
  intros [= <- _].
  destruct (county_party_cell r party Hp) as (cell & Hcell & ->).
  exists cell. split; [done|].
  apply lookup_union_Some_l, lookup_insert_eq.
Qed.

(** C8.  The record of a precinct row has the trimmed precinct cell as its
    jurisdiction and, as its geographic id, the base id of the mapping
    followed by "/precinct:" and the type id derived from that
    jurisdiction; the record of a county row has the name of the mapping
    as its jurisdiction and the base id, unchanged, as its geographic id. *)
Theorem jurisdiction_and_ocd_id (σ : state) (r : row) :
  (∀ rec σ', precinct_result r σ = (Ok rec, σ') →
     ∃ p, r !! "precinct" = Some (Some p) ∧
          rec !! "jurisdiction" = Some (PStr (strip p)) ∧
          rec !! "ocd_id" =
            Some (PStr (ocd_id (self_mapping σ) ++ lit "/precinct:"
                        ++ ocd_type_id (strip p)))) ∧
  (∀ rec σ', county_result r σ = (Ok rec, σ') →
     rec !! "jurisdiction" = Some (PStr (name (self_mapping σ))) ∧
     rec !! "ocd_id" = Some (PStr (ocd_id (self_mapping σ)))).
Proof.
  split; intros rec σ'.
  - unfold precinct_result. run_M.
    destruct (_build_contest_kwargs _ r); [|done].
    destruct (_build_candidate_kwargs r); [|done].
    destruct (text r "precinct") as [p|] eqn:Hp; [|done].
    destruct (precinct_votes r); [|done].
    intros [= <- _]. exists p. split; [by apply text_inv|].
    split; apply lookup_union_Some_l; by simplify_map_eq.
  - unfold county_result. run_M.
    destruct (_build_contest_kwargs _ r); [|done].
    destruct (_build_candidate_kwargs r); [|done].
    destruct (county_party r); [|done].
    destruct (county_votes r); [|done].
    intros [= <- _].
    split; apply lookup_union_Some_l; by simplify_map_eq.
Qed.


(** C7.  The dispatcher picks the XML loader exactly when the raw URL of
    the mapping is not empty, otherwise the precinct loader exactly when
    the pre-processed URL (the text the code calls the election id)
    contains "precinct", otherwise the county loader; it runs the loader
    it picked, and a run on the XML path ends with NotImplementedError
    and no insert call. *)
Theorem dispatch (m : mapping) (rows : list row) (σ : state) :
  (select_loader m = NVXmlLoader ↔ raw_url m ≠ []) ∧
  (select_loader m = NVPrecinctLoader ↔
     raw_url m = [] ∧
     Seq.contains (lit "precinct") (pre_processed_url m) = true) ∧
  (select_loader m = NVCountyLoader ↔
     raw_url m = [] ∧
     Seq.contains (lit "precinct") (pre_processed_url m) = false) ∧
  run m rows σ = BaseLoader_run (select_loader m) m rows σ ∧
  (raw_url m ≠ [] →
     ∃ σ', run m rows σ = (Raise NotImplementedError, σ') ∧
           inserted σ' = inserted σ).
Proof.
  unfold run, select_loader. change (lit "") with (@nil ascii).
  destruct (decide (raw_url m = [])) as [Hu|Hu].
  - rewrite bool_decide_eq_true_2 by done. cbn [negb].
    destruct (Seq.contains (lit "precinct") (pre_processed_url m));
      repeat split; try done; try (by intros [? ?]).
  - rewrite bool_decide_eq_false_2 by done. cbn [negb].
    repeat split; try done; try (by intros [? ?]).
    intros _. by eexists.
Qed.
End LoaderClaims.

(** * The theorems at sample inputs *)

Ltac decided := apply (bool_decide_unpack _); vm_compute; exact I.



Lemma general_office_parse_witness :
  _build_contest_kwargs general_county senate_row
  = Ok (contest "STATE SENATE" (PStr "DISTRICT 5") PNone).
Proof.
  etrans.
  - apply (proj1 (general_office_parse general_county senate_row
                    (lit "STATE SENATE, DISTRICT 5")
                    ltac:(decided) ltac:(decided))); decided.
  - decided.
Defined.

(** The claim fails on an office text with a second ", ", whose district
    stops there, and on a DISTRICT office without ", ", which raises. *)
Lemma general_office_parse_counterexample :
  (_build_contest_kwargs general_county
     {[ "office" := Some (lit "STATE SENATE, DISTRICT 5, SEAT A") ]}
   = Ok (contest "STATE SENATE" (PStr "DISTRICT 5") PNone) ∧
   strip (Seq.after (lit ", ") (lit "STATE SENATE, DISTRICT 5, SEAT A"))
   = lit "DISTRICT 5, SEAT A") ∧
  Seq.contains (codes "DISTRICT") (upper (lit "STATE ASSEMBLY DISTRICT 12"))
  = true ∧
  _build_contest_kwargs general_county
    {[ "office" := Some (lit "STATE ASSEMBLY DISTRICT 12") ]}
  = Raise IndexError.
Proof. repeat split; decided. Qed.

Lemma primary_office_parse_partial_witness :
  _build_contest_kwargs primary_precinct
    {[ "office" := Some (lit "STATE SENATE DISTRICT 5 (DEM)") ]}
  = Raise IndexError ∧
  _build_contest_kwargs primary_precinct
    {[ "office" := Some (lit "GOVERNOR") ]}
  = Raise IndexError.
Proof.
  split.
  - apply (primary_office_parse_partial primary_precinct _
             (lit "STATE SENATE DISTRICT 5 (DEM)"));
      [decided|decided|right; split; decided].
  - apply (primary_office_parse_partial primary_precinct _ (lit "GOVERNOR"));
      [decided|decided|left; decided].
Defined.

Lemma skip_row_tracked_witness :
  ∃ b : bool,
    precinct_skip_row senate_row = Ok b ∧
    county_skip_row senate_row = Ok b ∧
    (b = true ↔
     upper (strip (Seq.before (lit ",") (lit "STATE SENATE, DISTRICT 5")))
     ∉ target_offices).
Proof.
  apply (skip_row_tracked senate_row (lit "STATE SENATE, DISTRICT 5")).
  decided.
Defined.

Lemma votes_normalisation_witness :
  precinct_votes senate_row = Ok (PInt 1234) ∧
  county_votes senate_row = Ok (PInt 1234).
Proof.
  pose proof (proj1 (votes_normalisation senate_row (lit "1,234")
                       ltac:(decided)) ltac:(decided)) as [Wp Wc].
  split; (etrans; [eassumption|decided]).
Defined.

Lemma load_single_insert_witness :
  ∃ σ',
    county_load (H := sample_library) [senate_row; sheriff_row]
      (fresh general_county) = (Ok (), σ') ∧
    inserted σ' = inserted (fresh general_county)
                  ++ [omap id [Some senate_record; None]].
Proof.
  destruct (load_single_insert (H := sample_library)
              [senate_row; sheriff_row] (fresh general_county))
    as (_ & _ & W & _).
  apply (W [Some senate_record; None]).
  repeat constructor; decided.
Defined.

Lemma county_party_field_witness :
  ∃ cell, senate_row !! "party" = Some cell ∧
          senate_record !! "party" = Some (party_of_cell cell).
Proof.
  apply (county_party_field
           (prepared (H := sample_library) "county" (fresh general_county))
           (prepared (H := sample_library) "county" (fresh general_county))
           senate_row senate_record).
  decided.
Defined.

Lemma dispatch_witness :
  ∃ σ',
    run (H := sample_library) general_xml [senate_row] (fresh general_xml)
    = (Raise NotImplementedError, σ') ∧
    inserted σ' = inserted (fresh general_xml).
Proof.
  destruct (dispatch (H := sample_library) general_xml [senate_row]
              (fresh general_xml)) as (_ & _ & _ & _ & W).
  apply W. decided.
Defined.

Lemma jurisdiction_and_ocd_id_witness :
  ∃ p, governor_row !! "precinct" = Some (Some p) ∧
       governor_record !! "jurisdiction" = Some (PStr (strip p)) ∧
       governor_record !! "ocd_id" =
         Some (PStr (ocd_id primary_precinct ++ lit "/precinct:"
                     ++ ocd_type_id (Library := sample_library) (strip p))).
Proof.
  destruct (jurisdiction_and_ocd_id (H := sample_library)
              (prepared (H := sample_library) "precinct"
                 (fresh primary_precinct))
              governor_row) as [W _].
  apply (W governor_record
           (prepared (H := sample_library) "precinct"
              (fresh primary_precinct))).
  decided.
Defined.


(** * Further properties of the loaders *)

(** ** The office cell *)

Lemma text_missing (r : row) (key : string) :
  r !! key = None → text r key = Raise KeyError.
Proof. intros Hr. unfold text, getitem. by rewrite Hr. Qed.

Lemma text_none (r : row) (key : string) :
  r !! key = Some None → text r key = Raise AttributeError.
Proof. intros Hr. unfold text, getitem. by rewrite Hr. Qed.

Lemma contest_kwargs_raise (m : mapping) (r : row) (e : exn) :
  text r "office" = Raise e → _build_contest_kwargs m r = Raise e.
Proof.
  intros Hr. unfold _build_contest_kwargs. rewrite Hr.
  by destruct (Seq.contains (lit "primary") (election m)).
Qed.

(** X1.  A row without an office column makes the contest parse and both
    skip predicates raise KeyError; a row whose office cell is None makes
    them raise AttributeError. *)
Theorem office_cell_errors (m : mapping) (r : row) :
  (r !! "office" = None →
   _build_contest_kwargs m r = Raise KeyError ∧
   precinct_skip_row r = Raise KeyError ∧
   county_skip_row r = Raise KeyError) ∧
  (r !! "office" = Some None →
   _build_contest_kwargs m r = Raise AttributeError ∧
   precinct_skip_row r = Raise AttributeError ∧
   county_skip_row r = Raise AttributeError).
Proof.
  split.
  - intros Hr%text_missing. split; [by apply contest_kwargs_raise|].
    unfold precinct_skip_row, county_skip_row. by rewrite Hr.
  - intros Hr%text_none. split; [by apply contest_kwargs_raise|].
    unfold precinct_skip_row, county_skip_row. by rewrite Hr.
Qed.

Lemma office_cell_errors_witness :
  _build_contest_kwargs general_county {[ "votes" := Some (lit "12") ]}
  = Raise KeyError ∧
  precinct_skip_row {[ "office" := None ]} = Raise AttributeError.
Proof.
  split.
  - apply (proj1 (office_cell_errors general_county
                    {[ "votes" := Some (lit "12") ]})). decided.
  - apply (proj2 (office_cell_errors general_county {[ "office" := None ]})).
    decided.
Defined.

(** X2.  For an office cell that is a text the contest parse returns
    exactly when the text has a "(" or the election is no primary, and has
    a ", " or no DISTRICT in its upper-cased form; in every other case it
    raises IndexError. *)
Theorem contest_kwargs_success (m : mapping) (r : row) (o : str) :
  r !! "office" = Some (Some o) →
  let parenthesis :=
    negb (Seq.contains (lit "primary") (election m))
    || Seq.contains (lit "(") o in
  let separator :=
    negb (Seq.contains (codes "DISTRICT") (upper o))
    || Seq.contains (lit ", ") o in
  (parenthesis && separator = true →
   ∃ d, _build_contest_kwargs m r = Ok d) ∧
  (parenthesis && separator = false →
   _build_contest_kwargs m r = Raise IndexError).
Proof.
  intros Hr. cbv zeta.
  destruct (Seq.contains (lit "primary") (election m)) eqn:Hm.
  - rewrite (primary_steps m r o Hr Hm).
    destruct (Seq.contains (lit "(") o),
      (Seq.contains (codes "DISTRICT") (upper o)),
      (Seq.contains (lit ", ") o); cbn; split; try done; by eexists.
  - destruct (Seq.contains (codes "DISTRICT") (upper o)) eqn:Hd.
    + rewrite (general_district m r o Hr Hm Hd).
      destruct (Seq.contains (lit ", ") o); cbn; split; try done; by eexists.
    + rewrite (general_plain m r o Hr Hm Hd). cbn. split; [by eexists|done].
Qed.

Lemma contest_kwargs_success_witness :
  (∃ d, _build_contest_kwargs general_county senate_row = Ok d) ∧
  _build_contest_kwargs general_county
    {[ "office" := Some (lit "State Senate District 5") ]}
  = Raise IndexError.
Proof.
  split.
  - apply (proj1 (contest_kwargs_success general_county senate_row
                    (lit "STATE SENATE, DISTRICT 5") ltac:(decided))).
    decided.
  - apply (proj2 (contest_kwargs_success general_county
                    {[ "office" := Some (lit "State Senate District 5") ]}
                    (lit "State Senate District 5") ltac:(decided))).
    decided.
Defined.

(** ** The contest fields *)

Lemma contest_lookup (office : str) (district primary_party : pyval) :
  contest office district primary_party !! "office" = Some (PStr office) ∧
  contest office district primary_party !! "district" = Some district ∧
  contest office district primary_party !! "primary_party"
    = Some primary_party ∧
  contest office district primary_party !! "party" = Some primary_party.
Proof. unfold contest. repeat split; by simplify_map_eq. Qed.

Lemma contest_lookup_other (office : str) (district primary_party : pyval)
    (k : string) :
  k ≠ "office" → k ≠ "district" → k ≠ "primary_party" → k ≠ "party" →
  contest office district primary_party !! k = None.
Proof. intros. unfold contest. by simplify_map_eq. Qed.

(** Every dictionary the contest parse returns is a [contest] of a trimmed
    office, a district that is None or a trimmed text, and a primary party
    that is a text in a primary and None otherwise. *)
Lemma contest_kwargs_form (m : mapping) (r : row) (d : dict) :
  _build_contest_kwargs m r = Ok d →
  ∃ office district primary_party,
    d = contest office district primary_party ∧
    strip office = office ∧
    (district = PNone ∨ ∃ s, district = PStr s ∧ strip s = s) ∧
    (if Seq.contains (lit "primary") (election m)
     then ∃ s, primary_party = PStr s
     else primary_party = PNone).
Proof.
  destruct (r !! "office") as [[o|]|] eqn:Hr.
  - destruct (Seq.contains (lit "primary") (election m)) eqn:Hm.
    + rewrite (primary_steps m r o Hr Hm).
      destruct (Seq.contains (lit "(") o); [|done]. cbv zeta.
      destruct (Seq.contains (codes "DISTRICT") (upper o)).
      * destruct (Seq.contains (lit ", ") o); [|done].
        intros [= <-]. do 3 eexists. split; [done|].
        split; [apply strip_idemp|]. split; [|by eexists].
        right. eexists. split; [done|apply strip_idemp].
      * intros [= <-]. do 3 eexists. split; [done|].
        split; [apply strip_idemp|]. split; [by left|by eexists].
    + destruct (Seq.contains (codes "DISTRICT") (upper o)) eqn:Hd.
      * rewrite (general_district m r o Hr Hm Hd).
        destruct (Seq.contains (lit ", ") o); [|done].
        intros [= <-]. do 3 eexists. split; [done|].
        split; [apply strip_idemp|]. split; [|done].
        right. eexists. split; [done|apply strip_idemp].
      * rewrite (general_plain m r o Hr Hm Hd).
        intros [= <-]. do 3 eexists. split; [done|].
        split; [apply strip_idemp|]. split; [by left|done].
  - by rewrite (contest_kwargs_raise m r _ (text_none r "office" Hr)).
  - by rewrite (contest_kwargs_raise m r _ (text_missing r "office" Hr)).
Qed.

(** X3.  Whatever the contest parse returns has exactly the keys office,
    district, primary_party and party; the office is a trimmed text, the
    district None or a trimmed text, the party equal to the primary party,
    which is a text in a primary election and None in any other. *)
Theorem contest_kwargs_fields (m : mapping) (r : row) (d : dict) :
  _build_contest_kwargs m r = Ok d →
  (∃ office, d !! "office" = Some (PStr office) ∧ strip office = office) ∧
  (d !! "district" = Some PNone ∨
   ∃ s, d !! "district" = Some (PStr s) ∧ strip s = s) ∧
  d !! "party" = d !! "primary_party" ∧
  (if Seq.contains (lit "primary") (election m)
   then ∃ s, d !! "primary_party" = Some (PStr s)
   else d !! "primary_party" = Some PNone) ∧
  (∀ k, is_Some (d !! k) ↔
        k = "office" ∨ k = "district" ∨ k = "primary_party" ∨ k = "party").
Proof.
  intros (office & district & pp & -> & Hoff & Hdis & Hpp)%contest_kwargs_form.
  destruct (contest_lookup office district pp) as (Ho & Hd & Hp & Hy).
  split; [by exists office|]. split.
  { destruct Hdis as [->|(s & -> & Hs)]; [by left|right; by exists s]. }
  split; [by rewrite Hy, Hp|]. split.
  { destruct (Seq.contains (lit "primary") (election m)).
    - destruct Hpp as [s ->]. by exists s.
    - by subst pp. }
  intros k. split.
  - intros Hk.
    destruct (decide (k = "office")); [tauto|].
    destruct (decide (k = "district")); [tauto|].
    destruct (decide (k = "primary_party")); [tauto|].
    destruct (decide (k = "party")); [tauto|].
    rewrite contest_lookup_other in Hk by done. by destruct Hk.
  - intros [ -> | [ -> | [ -> | -> ] ] ]; by eexists.
Qed.

Lemma contest_kwargs_fields_witness :
  ∃ d, _build_contest_kwargs primary_precinct governor_row = Ok d ∧
       d !! "party" = d !! "primary_party" ∧
       ∃ s, d !! "primary_party" = Some (PStr s).
Proof.
  exists (contest "GOVERNOR" PNone (PStr "DEM")).
  assert (_build_contest_kwargs primary_precinct governor_row
          = Ok (contest "GOVERNOR" PNone (PStr "DEM"))) as Hd by decided.
  split; [exact Hd|].
  destruct (contest_kwargs_fields primary_precinct governor_row _ Hd)
    as (_ & _ & Hparty & Hprimary & _).
  split; [exact Hparty|exact Hprimary].
Defined.

Lemma before_prefix {A} `{EqDecision A} (sep s : list A) :
  ∃ t, s = Seq.before sep s ++ t.
Proof.
  induction s as [|a s [t IH]]; simpl.
  - exists []. by destruct (Seq.startswith sep []).
  - destruct (Seq.startswith sep (a :: s)); [by eexists|].
    exists t. simpl. by f_equal.
Qed.

Lemma before1_free {A} `{EqDecision A} (c : A) (s : list A) :
  c ∉ Seq.before [c] s.
Proof.
  induction s as [|a s IH].
  - simpl. apply not_elem_of_nil.
  - change (Seq.before [c] (a :: s))
      with (if Seq.startswith [c] (a :: s) then []
            else a :: Seq.before [c] s).
    rewrite startswith1. case_bool_decide as Hca.
    + apply not_elem_of_nil.
    + apply not_elem_of_cons. by split.
Qed.

(** X4.  In a primary election the office the contest parse returns holds
    no "(": the party in parentheses never stays in the office. *)
Theorem primary_office_without_parenthesis (m : mapping) (r : row) (d : dict) :
  Seq.contains (lit "primary") (election m) = true →
  _build_contest_kwargs m r = Ok d →
  ∃ office, d !! "office" = Some (PStr office) ∧ "("%char ∉ office.
Proof.
  intros Hm. destruct (r !! "office") as [[o|]|] eqn:Hr.
  - rewrite (primary_steps m r o Hr Hm).
    destruct (Seq.contains (lit "(") o); [|done]. cbv zeta.
    set (office := strip (Seq.before (lit ", ") (Seq.before (lit "(") o))).
    assert ("("%char ∉ office) as Hfree.
    { unfold office. rewrite elem_of_strip by done.
      destruct (before_prefix (lit ", ") (Seq.before (lit "(") o))
        as [t Ht].
      intros Hin. apply (before1_free "("%char o).
      change (lit "(") with ["("%char] in Ht. rewrite Ht.
      apply elem_of_app. by left. }
    destruct (Seq.contains (codes "DISTRICT") (upper o)).
    + destruct (Seq.contains (lit ", ") o); [|done].
      intros [= <-]. exists office. split; [apply contest_lookup|done].
    + intros [= <-]. exists office. split; [apply contest_lookup|done].
  - by rewrite (contest_kwargs_raise m r _ (text_none r "office" Hr)).
  - by rewrite (contest_kwargs_raise m r _ (text_missing r "office" Hr)).
Qed.

Lemma primary_office_without_parenthesis_witness :
  ∃ office,
    contest "GOVERNOR" PNone (PStr "DEM") !! "office" = Some (PStr office) ∧
    "("%char ∉ office.
Proof.
  apply (primary_office_without_parenthesis primary_precinct governor_row);
    decided.
Defined.

(** ** The skip predicates *)

Lemma tracked_without_parenthesis (t : list N) :
  t ∈ target_offices → 40%N ∉ t.
Proof.
  unfold target_offices. rewrite elem_of_list_to_set.
  revert t. apply Forall_forall. decided.
Qed.

Lemma upper_elem (c : ascii) (s : str) : c ∈ s → upper_char c ∈ upper s.
Proof.
  intros Hc. apply list_elem_of_In. unfold upper. apply in_map.
  by apply list_elem_of_In.
Qed.

(** X5.  A row whose office text has a "(" before its first comma is
    skipped by both loaders: no tracked office is written with one. *)
Theorem skip_row_parenthesis (r : row) (o : str) :
  r !! "office" = Some (Some o) →
  "("%char ∈ Seq.before (lit ",") o →
  precinct_skip_row r = Ok true ∧ county_skip_row r = Ok true.
Proof.
  intros Hr Hin.
  assert (upper (strip (Seq.before (lit ",") o)) ∉ target_offices) as Hno.
  { intros Ht%tracked_without_parenthesis. apply Ht.
    apply (upper_elem "("%char). by apply elem_of_strip. }
  unfold precinct_skip_row, county_skip_row.
  rewrite (text_cell _ _ _ Hr). parts.
  by rewrite bool_decide_eq_false_2.
Qed.

Lemma skip_row_parenthesis_witness :
  precinct_skip_row governor_row = Ok true ∧
  county_skip_row governor_row = Ok true.
Proof.
  apply (skip_row_parenthesis governor_row (lit "GOVERNOR (DEM)")); decided.
Defined.

(** X6.  Skipping looks at the text before the first comma only: a row
    whose office text goes on after a comma is skipped exactly when the row
    whose office text stops before that comma is. *)
Theorem skip_row_before_comma (r r' : row) (a b : str) :
  r !! "office" = Some (Some (a ++ lit "," ++ b)) →
  r' !! "office" = Some (Some a) →
  ","%char ∉ a →
  precinct_skip_row r = precinct_skip_row r' ∧
  county_skip_row r = county_skip_row r'.
Proof.
  intros Hr Hr' Ha.
  assert (Seq.before (lit ",") (a ++ lit "," ++ b) = Seq.before (lit ",") a)
    as Hsame.
  { change (lit ",") with [","%char]. simpl app.
    rewrite before1_app, before1_hit, app_nil_r by done.
    symmetry. apply before_absent. rewrite contains1.
    by apply bool_decide_eq_false_2. }
  unfold precinct_skip_row, county_skip_row.
  rewrite (text_cell _ _ _ Hr), (text_cell _ _ _ Hr'). parts.
  by rewrite Hsame.
Qed.

Lemma skip_row_before_comma_witness :
  precinct_skip_row senate_row
  = precinct_skip_row {[ "office" := Some (lit "STATE SENATE") ]} ∧
  county_skip_row senate_row
  = county_skip_row {[ "office" := Some (lit "STATE SENATE") ]}.
Proof.
  apply (skip_row_before_comma senate_row
           {[ "office" := Some (lit "STATE SENATE") ]}
           (lit "STATE SENATE") (lit " DISTRICT 5")); decided.
Defined.

(** ** The records *)

Lemma candidate_kwargs_form (r : row) (c : dict) :
  _build_candidate_kwargs r = Ok c →
  ∃ s, r !! "candidate" = Some (Some s) ∧
       c = {[ "full_name" := PStr (strip s) ]}.
Proof.
  unfold _build_candidate_kwargs.
  destruct (text r "candidate") as [s|] eqn:Hs; [|done].
  intros [= <-]. exists s. split; [by apply text_inv|done].
Qed.

Lemma precinct_votes_kind (r : row) (v : pyval) :
  precinct_votes r = Ok v → v = PStr (lit "N/A") ∨ ∃ z, v = PInt z.
Proof.
  unfold precinct_votes. destruct (text r "votes") as [t|]; [|done].
  rewrite !bind_Ok. case_bool_decide.
  - intros [= <-]. by left.
  - destruct (int _) as [z|]; [|done]. intros [= <-]. right. by exists z.
Qed.

Lemma county_votes_kind (r : row) (v : pyval) :
  county_votes r = Ok v → ∃ z, v = PInt z.
Proof.
  unfold county_votes. destruct (text r "votes") as [t|]; [|done].
  rewrite bind_Ok. destruct (int _) as [z|]; [|done].
  intros [= <-]. by exists z.
Qed.

Section RecordFacts.
Context `{Library}.

(** A record that was built is the update of the common keyword arguments
    by the contest fields, the candidate field and the fields of the level,
    in this order. *)
Lemma precinct_result_inv (r : row) (σ σ' : state) (rec : dict) :
  precinct_result r σ = (Ok rec, σ') →
  ∃ c cand p votes,
    _build_contest_kwargs (self_mapping σ) r = Ok c ∧
    _build_candidate_kwargs r = Ok cand ∧
    text r "precinct" = Ok p ∧
    precinct_votes r = Ok votes ∧
    rec = ({[ "jurisdiction" := PStr (strip p);
              "ocd_id" := PStr (ocd_id (self_mapping σ) ++ lit "/precinct:"
                                ++ ocd_type_id (strip p));
              "votes" := votes ]} : dict)
          ∪ (cand ∪ (c ∪ self_common_kwargs σ)).
Proof.
  unfold precinct_result. run_M.
  destruct (_build_contest_kwargs _ r) as [c|]; [|done].
  destruct (_build_candidate_kwargs r) as [cand|]; [|done].
  destruct (text r "precinct") as [p|]; [|done].
  destruct (precinct_votes r) as [votes|]; [|done].
  intros [= <- _]. by exists c, cand, p, votes.
Qed.

Lemma county_result_inv (r : row) (σ σ' : state) (rec : dict) :
  county_result r σ = (Ok rec, σ') →
  ∃ c cand party votes,
    _build_contest_kwargs (self_mapping σ) r = Ok c ∧
    _build_candidate_kwargs r = Ok cand ∧
    county_party r = Ok party ∧
    county_votes r = Ok votes ∧
    rec = ({[ "party" := party;
              "jurisdiction" := PStr (name (self_mapping σ));
              "ocd_id" := PStr (ocd_id (self_mapping σ));
              "votes" := votes ]} : dict)
          ∪ (cand ∪ (c ∪ self_common_kwargs σ)).
Proof.
  unfold county_result. run_M.
  destruct (_build_contest_kwargs _ r) as [c|]; [|done].
  destruct (_build_candidate_kwargs r) as [cand|]; [|done].
  destruct (county_party r) as [party|]; [|done].
  destruct (county_votes r) as [votes|]; [|done].
  intros [= <- _]. by exists c, cand, party, votes.
Qed.

(** X7.  The votes of a record are never a text of the file: a precinct
    record holds an integer or "N/A", a county record an integer. *)
Theorem record_votes_kind (r : row) (σ σ' : state) (rec : dict) :
  (precinct_result r σ = (Ok rec, σ') →
   rec !! "votes" = Some (PStr (lit "N/A")) ∨
   ∃ z, rec !! "votes" = Some (PInt z)) ∧
  (county_result r σ = (Ok rec, σ') →
   ∃ z, rec !! "votes" = Some (PInt z)).
Proof.
  split.
  - intros (c & cand & p & votes & _ & _ & _ & Hv & ->)%precinct_result_inv.
    assert (∀ v : pyval,
      (({[ "jurisdiction" := PStr (strip p);
           "ocd_id" := PStr (ocd_id (self_mapping σ) ++ lit "/precinct:"
                             ++ ocd_type_id (strip p));
           "votes" := v ]} : dict)
       ∪ (cand ∪ (c ∪ self_common_kwargs σ))) !! "votes" = Some v) as Hl.
    { intros v. apply lookup_union_Some_l. by simplify_map_eq. }
    destruct (precinct_votes_kind r votes Hv) as [->|[z ->]].
    + left. apply Hl.
    + right. exists z. apply Hl.
  - intros (c & cand & p & votes & _ & _ & _ & Hv & ->)%county_result_inv.
    destruct (county_votes_kind r votes Hv) as [z ->]. exists z.
    apply lookup_union_Some_l. by simplify_map_eq.
Qed.

(** X8.  A keyword of the common arguments that is none of office,
    district, primary_party, party, full_name, jurisdiction, ocd_id and
    votes reaches every record unchanged, and a keyword that is missing
    there is missing in the record. *)
Theorem common_kwargs_carried (r : row) (σ σ' : state) (rec : dict)
    (k : string) :
  k ∉ ["office"; "district"; "primary_party"; "party"; "full_name";
       "jurisdiction"; "ocd_id"; "votes"] →
  precinct_result r σ = (Ok rec, σ') ∨ county_result r σ = (Ok rec, σ') →
  rec !! k = self_common_kwargs σ !! k.
Proof.
  intros Hk. repeat (apply not_elem_of_cons in Hk as [? Hk]).
  intros [Hrec|Hrec].
  - apply precinct_result_inv in Hrec
      as (c & cand & p & votes & Hc & Hcand & _ & _ & ->).
    apply contest_kwargs_form in Hc as (o & d & pp & -> & _).
    apply candidate_kwargs_form in Hcand as (s & _ & ->).
    rewrite lookup_union_r by by simplify_map_eq.
    rewrite lookup_union_r by by simplify_map_eq.
    apply lookup_union_r. by apply contest_lookup_other.
  - apply county_result_inv in Hrec
      as (c & cand & p & votes & Hc & Hcand & _ & _ & ->).
    apply contest_kwargs_form in Hc as (o & d & pp & -> & _).
    apply candidate_kwargs_form in Hcand as (s & _ & ->).
    rewrite lookup_union_r by by simplify_map_eq.
    rewrite lookup_union_r by by simplify_map_eq.
    apply lookup_union_r. by apply contest_lookup_other.
Qed.

Lemma record_lookup_contest (u cand c common : dict) (k : string) (v : pyval) :
  u !! k = None → cand !! k = None → c !! k = Some v →
  (u ∪ (cand ∪ (c ∪ common))) !! k = c !! k.
Proof.
  intros Hu Hcand Hc. rewrite !lookup_union_r by done.
  rewrite Hc. by apply lookup_union_Some_l.
Qed.

(** X9.  A record takes its office, district and primary party from the
    contest parse of its row and its full name from the trimmed candidate
    cell, whatever the common keyword arguments hold under these keys; a
    precinct record takes its party from the contest parse too. *)
Theorem record_fields (r : row) (σ σ' : state) (rec : dict) :
  (precinct_result r σ = (Ok rec, σ') →
   ∃ c s,
     _build_contest_kwargs (self_mapping σ) r = Ok c ∧
     r !! "candidate" = Some (Some s) ∧
     rec !! "office" = c !! "office" ∧
     rec !! "district" = c !! "district" ∧
     rec !! "primary_party" = c !! "primary_party" ∧
     rec !! "party" = c !! "party" ∧
     rec !! "full_name" = Some (PStr (strip s))) ∧
  (county_result r σ = (Ok rec, σ') →
   ∃ c s,
     _build_contest_kwargs (self_mapping σ) r = Ok c ∧
     r !! "candidate" = Some (Some s) ∧
     rec !! "office" = c !! "office" ∧
     rec !! "district" = c !! "district" ∧
     rec !! "primary_party" = c !! "primary_party" ∧
     rec !! "full_name" = Some (PStr (strip s))).
Proof.
  split.
  - intros (c & cand & p & votes & Hc & Hcand & _ & _ & ->)%precinct_result_inv.
    pose proof Hc as Hform.
    apply contest_kwargs_form in Hform as (o & d & pp & -> & _).
    apply candidate_kwargs_form in Hcand as (s & Hs & ->).
    destruct (contest_lookup o d pp) as (Ho & Hd & Hp & Hy).
    exists (contest o d pp), s. split; [done|]. split; [done|].
    split; [|split; [|split; [|split]]].
    + eapply record_lookup_contest; [by simplify_map_eq..|exact Ho].
    + eapply record_lookup_contest; [by simplify_map_eq..|exact Hd].
    + eapply record_lookup_contest; [by simplify_map_eq..|exact Hp].
    + eapply record_lookup_contest; [by simplify_map_eq..|exact Hy].
    + rewrite lookup_union_r by by simplify_map_eq.
      apply lookup_union_Some_l. by simplify_map_eq.
  - intros (c & cand & p & votes & Hc & Hcand & _ & _ & ->)%county_result_inv.
    pose proof Hc as Hform.
    apply contest_kwargs_form in Hform as (o & d & pp & -> & _).
    apply candidate_kwargs_form in Hcand as (s & Hs & ->).
    destruct (contest_lookup o d pp) as (Ho & Hd & Hp & Hy).
    exists (contest o d pp), s. split; [done|]. split; [done|].
    split; [|split; [|split]].
    + eapply record_lookup_contest; [by simplify_map_eq..|exact Ho].
    + eapply record_lookup_contest; [by simplify_map_eq..|exact Hd].
    + eapply record_lookup_contest; [by simplify_map_eq..|exact Hp].
    + rewrite lookup_union_r by by simplify_map_eq.
      apply lookup_union_Some_l. by simplify_map_eq.
Qed.
End RecordFacts.

(** ** The columns a loader reads *)

Lemma text_agree (r r' : row) (key : string) :
  r !! key = r' !! key → text r key = text r' key.
Proof. intros E. unfold text, getitem. by rewrite E. Qed.

Lemma contest_kwargs_agree (m : mapping) (r r' : row) :
  r !! "office" = r' !! "office" →
  _build_contest_kwargs m r = _build_contest_kwargs m r'.
Proof.
  intros E%text_agree. unfold _build_contest_kwargs. by rewrite E.
Qed.

Section ColumnFacts.
Context `{Library}.

(** X10.  The precinct loader reads the columns office, candidate, precinct
    and votes and no other: two rows that agree on them are skipped alike
    and give the same record or the same exception.  The county loader
    reads office, candidate, party and votes in the same way. *)
Theorem columns_read (r r' : row) (σ : state) :
  ((∀ k, k ∈ ["office"; "candidate"; "precinct"; "votes"] →
         r !! k = r' !! k) →
   precinct_skip_row r = precinct_skip_row r' ∧
   precinct_result r σ = precinct_result r' σ) ∧
  ((∀ k, k ∈ ["office"; "candidate"; "party"; "votes"] →
         r !! k = r' !! k) →
   county_skip_row r = county_skip_row r' ∧
   county_result r σ = county_result r' σ).
Proof.
  split; intros Hk.
  - assert (r !! "office" = r' !! "office") as Ho by (apply Hk; set_solver).
    assert (r !! "candidate" = r' !! "candidate") as Hc
      by (apply Hk; set_solver).
    assert (r !! "precinct" = r' !! "precinct") as Hp
      by (apply Hk; set_solver).
    assert (r !! "votes" = r' !! "votes") as Hv by (apply Hk; set_solver).
    split.
    + unfold precinct_skip_row. by rewrite (text_agree r r' "office" Ho).
    + unfold precinct_result, precinct_votes, _build_candidate_kwargs.
      run_M.
      rewrite (contest_kwargs_agree (self_mapping σ) r r' Ho).
      by rewrite (text_agree r r' "candidate" Hc),
        (text_agree r r' "precinct" Hp), (text_agree r r' "votes" Hv).
  - assert (r !! "office" = r' !! "office") as Ho by (apply Hk; set_solver).
    assert (r !! "candidate" = r' !! "candidate") as Hc
      by (apply Hk; set_solver).
    assert (r !! "party" = r' !! "party") as Hp by (apply Hk; set_solver).
    assert (r !! "votes" = r' !! "votes") as Hv by (apply Hk; set_solver).
    split.
    + unfold county_skip_row. by rewrite (text_agree r r' "office" Ho).
    + unfold county_result, county_votes, county_party,
        _build_candidate_kwargs, getitem.
      run_M.
      rewrite (contest_kwargs_agree (self_mapping σ) r r' Ho).
      by rewrite (text_agree r r' "candidate" Hc),
        (text_agree r r' "party" Hp), (text_agree r r' "votes" Hv), Hp.
Qed.
End ColumnFacts.

Lemma record_votes_kind_witness :
  governor_record !! "votes" = Some (PStr (lit "N/A")) ∨
  ∃ z, governor_record !! "votes" = Some (PInt z).
Proof.
  apply (proj1 (record_votes_kind (H := sample_library) governor_row
                  (prepared (H := sample_library) "precinct"
                     (fresh primary_precinct))
                  (prepared (H := sample_library) "precinct"
                     (fresh primary_precinct))
                  governor_record)).
  decided.
Defined.

Lemma common_kwargs_carried_witness :
  senate_record !! "election_id"
  = self_common_kwargs
      (prepared (H := sample_library) "county" (fresh general_county))
    !! "election_id".
Proof.
  apply (common_kwargs_carried (H := sample_library) senate_row
           (prepared (H := sample_library) "county" (fresh general_county))
           (prepared (H := sample_library) "county" (fresh general_county))
           senate_record "election_id").
  - decided.
  - right. decided.
Defined.

Lemma record_fields_witness :
  ∃ c s,
    _build_contest_kwargs general_county senate_row = Ok c ∧
    senate_row !! "candidate" = Some (Some s) ∧
    senate_record !! "office" = c !! "office" ∧
    senate_record !! "district" = c !! "district" ∧
    senate_record !! "primary_party" = c !! "primary_party" ∧
    senate_record !! "full_name" = Some (PStr (strip s)).
Proof.
  apply (proj2 (record_fields (H := sample_library) senate_row
                  (prepared (H := sample_library) "county"
                     (fresh general_county))
                  (prepared (H := sample_library) "county"
                     (fresh general_county))
                  senate_record)).
  decided.
Defined.

Lemma columns_read_witness :
  precinct_skip_row governor_row
  = precinct_skip_row (delete "party" governor_row) ∧
  precinct_result (H := sample_library) governor_row
    (fresh primary_precinct)
  = precinct_result (H := sample_library) (delete "party" governor_row)
      (fresh primary_precinct).
Proof.
  apply (proj1 (columns_read (H := sample_library) governor_row
                  (delete "party" governor_row) (fresh primary_precinct))).
  apply (proj1 (Forall_forall
                  (λ k, governor_row !! k
                        = delete "party" governor_row !! k)
                  ["office"; "candidate"; "precinct"; "votes"])).
  decided.
Defined.

(** ** The loops *)

Section LoopFacts.
Context `{Library}.

(** A loop that returns has gone through every row. *)
Lemma precinct_rows_inv σ σ' rows acc res :
  precinct_rows rows acc σ = (Ok res, σ') →
  σ' = σ ∧
  ∃ outs, Forall2 (λ r out, precinct_turn σ r = Ok out) rows outs ∧
          res = acc ++ omap id outs.
Proof.
  revert acc. induction rows as [|a rows IH]; intros acc.
  - intros [= <- <-]. split; [done|]. exists []. split; [constructor|].
    simpl. by rewrite app_nil_r.
  - cbn [precinct_rows]. run_M.
    destruct (precinct_skip_row a) as [[|]|e] eqn:Hs; [| |done].
    + intros (-> & outs & HF & ->)%IH. split; [done|].
      exists (None :: outs). split; [|done].
      constructor; [|done]. unfold precinct_turn. by rewrite Hs.
    + pose proof (precinct_result_state a σ) as Hσ.
      destruct (precinct_result a σ) as [[rec|e] σ1] eqn:Ha; [|done].
      simpl in Hσ. subst σ1.
      intros (-> & outs & HF & ->)%IH. split; [done|].
      exists (Some rec :: outs). split.
      * constructor; [|done]. unfold precinct_turn. by rewrite Hs, Ha.
      * simpl. by rewrite <- app_assoc.
Qed.

Lemma county_rows_inv σ σ' rows acc res :
  county_rows rows acc σ = (Ok res, σ') →
  σ' = σ ∧
  ∃ outs, Forall2 (λ r out, county_turn σ r = Ok out) rows outs ∧
          res = acc ++ omap id outs.
Proof.
  revert acc. induction rows as [|a rows IH]; intros acc.
  - intros [= <- <-]. split; [done|]. exists []. split; [constructor|].
    simpl. by rewrite app_nil_r.
  - cbn [county_rows]. run_M.
    destruct (county_skip_row a) as [[|]|e] eqn:Hs; [| |done].
    + intros (-> & outs & HF & ->)%IH. split; [done|].
      exists (None :: outs). split; [|done].
      constructor; [|done]. unfold county_turn. by rewrite Hs.
    + pose proof (county_result_state a σ) as Hσ.
      destruct (county_result a σ) as [[rec|e] σ1] eqn:Ha; [|done].
      simpl in Hσ. subst σ1.
      intros (-> & outs & HF & ->)%IH. split; [done|].
      exists (Some rec :: outs). split.
      * constructor; [|done]. unfold county_turn. by rewrite Hs, Ha.
      * simpl. by rewrite <- app_assoc.
Qed.

(** The loop stops at the first row that raises, with its exception. *)
Lemma precinct_rows_first σ pre outs r e post acc :
  Forall2 (λ r out, precinct_turn σ r = Ok out) pre outs →
  precinct_turn σ r = Raise e →
  precinct_rows (pre ++ r :: post) acc σ = (Raise e, σ).
Proof.
  intros HF Hr. revert acc.
  induction HF as [|a out pre outs Ha _ IH]; intros acc.
  - cbn [app precinct_rows]. run_M. unfold precinct_turn in Hr.
    destruct (precinct_skip_row r) as [[|]|e0]; [done| |by injection Hr as ->].
    pose proof (precinct_result_state r σ) as Hσ.
    destruct (precinct_result r σ) as [[rec|e1] σ1]; [done|].
    simpl in Hσ. subst σ1. by injection Hr as ->.
  - cbn [app precinct_rows]. run_M. unfold precinct_turn in Ha.
    destruct (precinct_skip_row a) as [[|]|e0]; [apply IH| |done].
    pose proof (precinct_result_state a σ) as Hσ.
    destruct (precinct_result a σ) as [[rec|e1] σ1]; [|done].
    simpl in Hσ. subst σ1. apply IH.
Qed.

Lemma county_rows_first σ pre outs r e post acc :
  Forall2 (λ r out, county_turn σ r = Ok out) pre outs →
  county_turn σ r = Raise e →
  county_rows (pre ++ r :: post) acc σ = (Raise e, σ).
Proof.
  intros HF Hr. revert acc.
  induction HF as [|a out pre outs Ha _ IH]; intros acc.
  - cbn [app county_rows]. run_M. unfold county_turn in Hr.
    destruct (county_skip_row r) as [[|]|e0]; [done| |by injection Hr as ->].
    pose proof (county_result_state r σ) as Hσ.
    destruct (county_result r σ) as [[rec|e1] σ1]; [done|].
    simpl in Hσ. subst σ1. by injection Hr as ->.
  - cbn [app county_rows]. run_M. unfold county_turn in Ha.
    destruct (county_skip_row a) as [[|]|e0]; [apply IH| |done].
    pose proof (county_result_state a σ) as Hσ.
    destruct (county_result a σ) as [[rec|e1] σ1]; [|done].
    simpl in Hσ. subst σ1. apply IH.
Qed.
End LoopFacts.

(** ** Loads *)

Lemma omap_id_length {A} (l : list (option A)) :
  (length (omap id l) ≤ length l)%nat.
Proof.
  induction l as [|[a|] l IH]; [done| |].
  - change (omap id (Some a :: l)) with (a :: omap id l). simpl. lia.
  - change (omap id (None :: l)) with (omap id l). simpl. lia.
Qed.

Section LoadFacts.
Context `{Library}.

Lemma precinct_rows_skipped σ rows acc :
  Forall (λ r, precinct_skip_row r = Ok true) rows →
  precinct_rows rows acc σ = (Ok acc, σ).
Proof.
  induction 1 as [|r rows Hr _ IH]; [done|].
  cbn [precinct_rows]. run_M. by rewrite Hr.
Qed.

Lemma county_rows_skipped σ rows acc :
  Forall (λ r, county_skip_row r = Ok true) rows →
  county_rows rows acc σ = (Ok acc, σ).
Proof.
  induction 1 as [|r rows Hr _ IH]; [done|].
  cbn [county_rows]. run_M. by rewrite Hr.
Qed.

Lemma precinct_load_inv rows σ σ' :
  precinct_load rows σ = (Ok (), σ') →
  ∃ outs,
    Forall2 (λ r out,
               precinct_turn (prepared (lit "precinct") σ) r = Ok out)
      rows outs ∧
    σ' = committed (omap id outs) (prepared (lit "precinct") σ).
Proof.
  rewrite precinct_load_rows.
  destruct (precinct_rows rows [] (prepared (lit "precinct") σ))
    as [[res|e] σ1] eqn:E; [|done].
  apply precinct_rows_inv in E as (-> & outs & HF & ->).
  intros [= <-]. by exists outs.
Qed.

Lemma county_load_inv rows σ σ' :
  county_load rows σ = (Ok (), σ') →
  ∃ outs,
    Forall2 (λ r out, county_turn (prepared (lit "county") σ) r = Ok out)
      rows outs ∧
    σ' = committed (omap id outs) (prepared (lit "county") σ).
Proof.
  rewrite county_load_rows.
  destruct (county_rows rows [] (prepared (lit "county") σ))
    as [[res|e] σ1] eqn:E; [|done].
  apply county_rows_inv in E as (-> & outs & HF & ->).
  intros [= <-]. by exists outs.
Qed.

(** X11.  A load that returns has taken every row without an exception:
    each row was skipped or gave one record, the records make up the one
    batch that was inserted, in the order of the rows, so the batch is no
    longer than the input; the mapping of the loader is unchanged. *)
Theorem load_returns (rows : list row) (σ σ' : state) :
  (precinct_load rows σ = (Ok (), σ') →
   ∃ outs,
     Forall2 (λ r out,
                precinct_turn (prepared (lit "precinct") σ) r = Ok out)
       rows outs ∧
     inserted σ' = inserted σ ++ [omap id outs] ∧
     (length (omap id outs) ≤ length rows)%nat ∧
     self_mapping σ' = self_mapping σ) ∧
  (county_load rows σ = (Ok (), σ') →
   ∃ outs,
     Forall2 (λ r out, county_turn (prepared (lit "county") σ) r = Ok out)
       rows outs ∧
     inserted σ' = inserted σ ++ [omap id outs] ∧
     (length (omap id outs) ≤ length rows)%nat ∧
     self_mapping σ' = self_mapping σ).
Proof.
  split.
  - intros (outs & HF & ->)%precinct_load_inv. exists outs.
    repeat split; try done.
    rewrite (Forall2_length _ _ _ HF). apply omap_id_length.
  - intros (outs & HF & ->)%county_load_inv. exists outs.
    repeat split; try done.
    rewrite (Forall2_length _ _ _ HF). apply omap_id_length.
Qed.

(** X12.  A load ends with the exception of the first row that raises one:
    when the rows before it go through, the exception of the load is that
    of this row, whatever follows it, and nothing is inserted. *)
Theorem load_first_error (pre post : list row) (r : row) (e : exn)
    (σ : state) :
  (∀ outs,
     Forall2 (λ r out,
                precinct_turn (prepared (lit "precinct") σ) r = Ok out)
       pre outs →
     precinct_turn (prepared (lit "precinct") σ) r = Raise e →
     ∃ σ', precinct_load (pre ++ r :: post) σ = (Raise e, σ') ∧
           inserted σ' = inserted σ) ∧
  (∀ outs,
     Forall2 (λ r out, county_turn (prepared (lit "county") σ) r = Ok out)
       pre outs →
     county_turn (prepared (lit "county") σ) r = Raise e →
     ∃ σ', county_load (pre ++ r :: post) σ = (Raise e, σ') ∧
           inserted σ' = inserted σ).
Proof.
  split; intros outs HF Hr.
  - rewrite precinct_load_rows.
    rewrite (precinct_rows_first _ pre outs r e post [] HF Hr).
    by eexists.
  - rewrite county_load_rows.
    rewrite (county_rows_first _ pre outs r e post [] HF Hr).
    by eexists.
Qed.

(** X13.  Loads compose: when the load of one list of rows inserts a batch
    and the load of another list, by the same loader, inserts another, the
    load of the two lists one after the other inserts the first batch
    followed by the second. *)
Theorem load_append (rows1 rows2 : list row) (σ σ1 σ2 : state)
    (b1 b2 : list dict) :
  (precinct_load rows1 σ = (Ok (), σ1) → inserted σ1 = inserted σ ++ [b1] →
   precinct_load rows2 σ = (Ok (), σ2) → inserted σ2 = inserted σ ++ [b2] →
   ∃ σ', precinct_load (rows1 ++ rows2) σ = (Ok (), σ') ∧
         inserted σ' = inserted σ ++ [b1 ++ b2]) ∧
  (county_load rows1 σ = (Ok (), σ1) → inserted σ1 = inserted σ ++ [b1] →
   county_load rows2 σ = (Ok (), σ2) → inserted σ2 = inserted σ ++ [b2] →
   ∃ σ', county_load (rows1 ++ rows2) σ = (Ok (), σ') ∧
         inserted σ' = inserted σ ++ [b1 ++ b2]).
Proof.
  split.
  - intros (outs1 & HF1 & ->)%precinct_load_inv Hb1
           (outs2 & HF2 & ->)%precinct_load_inv Hb2.
    cbn [committed prepared inserted] in Hb1, Hb2.
    apply app_inv_head in Hb1 as [= <-]. apply app_inv_head in Hb2 as [= <-].
    rewrite precinct_load_rows.
    rewrite (precinct_rows_ok _ _ (outs1 ++ outs2) [])
      by by apply Forall2_app.
    eexists. split; [done|]. cbn [committed prepared inserted].
    by rewrite omap_app.
  - intros (outs1 & HF1 & ->)%county_load_inv Hb1
           (outs2 & HF2 & ->)%county_load_inv Hb2.
    cbn [committed prepared inserted] in Hb1, Hb2.
    apply app_inv_head in Hb1 as [= <-]. apply app_inv_head in Hb2 as [= <-].
    rewrite county_load_rows.
    rewrite (county_rows_ok _ _ (outs1 ++ outs2) [])
      by by apply Forall2_app.
    eexists. split; [done|]. cbn [committed prepared inserted].
    by rewrite omap_app.
Qed.

(** X14.  A load none of whose rows is kept, the load of an empty file
    among them, still makes its one insert call, with an empty batch; the
    other cells of the skipped rows are not looked at. *)
Theorem load_all_skipped (rows : list row) (σ : state) :
  (Forall (λ r, precinct_skip_row r = Ok true) rows →
   ∃ σ', precinct_load rows σ = (Ok (), σ') ∧
         inserted σ' = inserted σ ++ [[]]) ∧
  (Forall (λ r, county_skip_row r = Ok true) rows →
   ∃ σ', county_load rows σ = (Ok (), σ') ∧
         inserted σ' = inserted σ ++ [[]]).
Proof.
  split; intros Hrows.
  - rewrite precinct_load_rows, precinct_rows_skipped by done. by eexists.
  - rewrite county_load_rows, county_rows_skipped by done. by eexists.
Qed.
End LoadFacts.

Lemma load_returns_witness :
  ∃ outs,
    Forall2 (λ r out,
               county_turn
                 (prepared (H := sample_library) (lit "county")
                    (fresh general_county)) r = Ok out)
      [senate_row; sheriff_row] outs ∧
    inserted (committed [senate_record]
                (prepared (H := sample_library) (lit "county")
                   (fresh general_county)))
    = inserted (fresh general_county) ++ [omap id outs] ∧
    (length (omap id outs) ≤ length [senate_row; sheriff_row])%nat ∧
    self_mapping (committed [senate_record]
                    (prepared (H := sample_library) (lit "county")
                       (fresh general_county)))
    = self_mapping (fresh general_county).
Proof.
  apply (proj2 (load_returns (H := sample_library)
                  [senate_row; sheriff_row] (fresh general_county)
                  (committed [senate_record]
                     (prepared (H := sample_library) (lit "county")
                        (fresh general_county))))).
  decided.
Defined.

Lemma load_first_error_witness :
  ∃ σ',
    county_load (H := sample_library)
      ([senate_row] ++ blank_votes_row :: [sheriff_row])
      (fresh general_county)
    = (Raise ValueError, σ') ∧
    inserted σ' = inserted (fresh general_county).
Proof.
  apply (proj2 (load_first_error (H := sample_library)
                  [senate_row] [sheriff_row] blank_votes_row ValueError
                  (fresh general_county))
           [Some senate_record]).
  - constructor; [decided|constructor].
  - decided.
Defined.

Lemma load_append_witness :
  ∃ σ',
    county_load (H := sample_library) ([senate_row] ++ [sheriff_row])
      (fresh general_county) = (Ok (), σ') ∧
    inserted σ' = inserted (fresh general_county) ++ [[senate_record] ++ []].
Proof.
  apply (proj2 (load_append (H := sample_library)
                  [senate_row] [sheriff_row] (fresh general_county)
                  (committed [senate_record]
                     (prepared (H := sample_library) (lit "county")
                        (fresh general_county)))
                  (committed []
                     (prepared (H := sample_library) (lit "county")
                        (fresh general_county)))
                  [senate_record] [])); decided.
Defined.

Lemma load_all_skipped_witness :
  ∃ σ',
    precinct_load (H := sample_library) [governor_row; sheriff_row]
      (fresh primary_precinct) = (Ok (), σ') ∧
    inserted σ' = inserted (fresh primary_precinct) ++ [[]].
Proof.
  apply (proj1 (load_all_skipped (H := sample_library)
                  [governor_row; sheriff_row] (fresh primary_precinct))).
  constructor; [decided|].
  constructor; [decided|constructor].
Defined.

(** ** The party and the votes of a county row *)

(** X15.  A party cell that is not empty but holds white space only gives
    the empty text as the party of the county record, not None. *)
Theorem county_party_blank (r : row) (p : str) (σ σ' : state) (rec : dict) :
  r !! "party" = Some (Some p) → p ≠ [] → blank p →
  county_party r = Ok (PStr []) ∧
  (county_result r σ = (Ok rec, σ') → rec !! "party" = Some (PStr [])).
Proof.
  intros Hr Hp Hb.
  assert (county_party r = Ok (PStr [])) as Hparty.
  { unfold county_party, text, getitem. rewrite Hr, ?bind_Ok.
    destruct p as [|c p]; [done|]. cbn [truthy]. rewrite ?bind_Ok.
    rewrite bool_decide_eq_false_2.
    - cbn [negb]. rewrite ?bind_Ok. cbn [receiver]. rewrite ?bind_Ok.
      by rewrite strip_blank.
    - intros [= -> ->]. by inversion Hb. }
  split; [done|].
  intros (c & cand & party & votes & _ & _ & Hparty' & _ & ->)%county_result_inv.
  rewrite Hparty in Hparty'. injection Hparty' as <-.
  apply lookup_union_Some_l. by simplify_map_eq.
Qed.

Lemma county_party_blank_witness :
  county_party {[ "party" := Some (lit "  ") ]} = Ok (PStr []).
Proof.
  apply (county_party_blank {[ "party" := Some (lit "  ") ]} (lit "  ")
           (fresh general_county) (fresh general_county) ∅).
  - decided.
  - decided.
  - repeat constructor.
Defined.

Lemma decimal_from_nonnegative (s : str) (acc : Z) :
  forallb is_digit s = true → (0 ≤ acc)%Z →
  (0 ≤ fold_left (λ a c, 10 * a + (Z.of_N (N_of_ascii c) - 48)) s acc)%Z.
Proof.
  revert acc. induction s as [|c s IH]; intros acc; simpl; [done|].
  intros [Hc Hs]%andb_prop Hacc. apply IH; [done|].
  unfold is_digit in Hc. apply andb_prop in Hc as [Hlo _].
  apply N.leb_le in Hlo. lia.
Qed.

Lemma digit_run_nonnegative (s : str) :
  digit_run s = true → (0 ≤ decimal s)%Z.
Proof.
  intros Hs. apply decimal_from_nonnegative; [|done].
  by destruct s.
Qed.

(** X16.  A vote count is negative only through a minus sign in the file:
    the integer a loader reads from a votes cell without "-" is not
    negative. *)
Theorem votes_nonnegative (r : row) (v : str) (z : Z) :
  r !! "votes" = Some (Some v) →
  "-"%char ∉ v →
  precinct_votes r = Ok (PInt z) ∨ county_votes r = Ok (PInt z) →
  (0 ≤ z)%Z.
Proof.
  intros Hr Hminus Hz.
  assert (county_votes r = Ok (PInt z)) as Hc.
  { destruct Hz as [Hz|Hz]; [|done].
    rewrite (precinct_votes_int r v Hr) in Hz. by case_bool_decide. }
  rewrite (county_votes_int r v Hr) in Hc. cbv zeta in Hc.
  set (t := strip (without "," v)) in *.
  assert ("-"%char ∉ t) as Ht.
  { unfold t. rewrite elem_of_strip by done. unfold without.
    rewrite list_elem_of_filter. tauto. }
  destruct (numeric t) eqn:Hnum; [|done]. injection Hc as <-.
  destruct t as [|c b]; [done|].
  apply not_elem_of_cons in Ht as [Hc _].
  unfold numeric, is_sign in Hnum. unfold number.
  rewrite (bool_decide_eq_false_2 (c = "-"%char)) in * by done.
  rewrite orb_false_r in Hnum.
  case_bool_decide; by apply digit_run_nonnegative.
Qed.

Lemma votes_nonnegative_witness : (0 ≤ 1234)%Z.
Proof.
  apply (votes_nonnegative senate_row (lit "1,234") 1234).
  - decided.
  - decided.
  - right. decided.
Defined.

(** ** The party of a precinct record *)

(** X17.  The precinct loader does not take the party from the party
    column: the party of a precinct record is its primary party, a text in
    a primary election and None in any other. *)
Theorem precinct_party (H : Library) (r : row) (σ σ' : state) (rec : dict) :
  precinct_result r σ = (Ok rec, σ') →
  rec !! "party" = rec !! "primary_party" ∧
  (if Seq.contains (lit "primary") (election (self_mapping σ))
   then ∃ s, rec !! "party" = Some (PStr s)
   else rec !! "party" = Some PNone).
Proof.
  intros (c & cand & p & votes & Hc & Hcand & _ & _ & ->)%precinct_result_inv.
  apply contest_kwargs_form in Hc as (o & d & pp & -> & _ & _ & Hpp).
  apply candidate_kwargs_form in Hcand as (s & _ & ->).
  destruct (contest_lookup o d pp) as (_ & _ & Hp & Hy).
  rewrite (record_lookup_contest _ _ _ _ "party" pp)
    by (by simplify_map_eq || exact Hy).
  rewrite (record_lookup_contest _ _ _ _ "primary_party" pp)
    by (by simplify_map_eq || exact Hp).
  rewrite Hy, Hp. split; [done|].
  destruct (Seq.contains (lit "primary") (election (self_mapping σ))).
  - destruct Hpp as [t ->]. by exists t.
  - by subst pp.
Qed.

Lemma precinct_party_witness :
  governor_record !! "party" = governor_record !! "primary_party" ∧
  ∃ s, governor_record !! "party" = Some (PStr s).
Proof.
  apply (precinct_party sample_library governor_row
           (prepared (H := sample_library) "precinct"
              (fresh primary_precinct))
           (prepared (H := sample_library) "precinct"
              (fresh primary_precinct))
           governor_record).
  decided.
Defined.
